(** * Home Energy Efficiency Analyzer: the assessment canister of [src/index.ts]

    A shallow embedding of the canister's record store and of its nine
    methods, followed by the properties of the specification.

    - JavaScript [number] is IEEE 754 binary64: [float] of the kernel.
    - [nat64] values are never computed with, only stored: [N].
    - The [StableBTreeMap] is an association list kept in ascending key
      order; its [insert] refuses keys and values over the sizes the map is
      declared with, which is what the [try]/[catch] blocks of the source
      are there for.
    - [ic.time()], [ic.caller()] and [uuidv4()] are what the call observes
      of its surroundings: a [Call] record handed to every update. *)

From Stdlib Require Import String Ascii List NArith Bool Lia Floats.
From Stdlib Require Import OrderedTypeEx.
Import ListNotations.

Set Implicit Arguments.

Local Open Scope string_scope.
Local Open Scope N_scope.

(** ** Values of the host platform *)

Definition nat64 : Type := N.

(** A principal is opaque to the canister; its textual form stands for it. *)
Definition Principal : Type := string.

Inductive Result (T E : Type) : Type :=
| Ok (value : T)
| Err (error : E).

Arguments Ok {T E} value.
Arguments Err {T E} error.

(** JavaScript truthiness of a string: every string but the empty one. *)
Definition truthy (s : string) : bool :=
  match s with
  | EmptyString => false
  | String _ _ => true
  end.

(** [a || b] on strings. *)
Definition or_else (a b : string) : string :=
  if truthy a then a else b.

(** [x >= y] on numbers: [y <= x], false as soon as one of them is a NaN. *)
Definition geb (x y : float) : bool := PrimFloat.leb y x.

(** [Array.prototype.reduce] with an initial value. *)
Definition reduce {A B : Type} (f : B -> A -> B) (init : B) (xs : list A) : B :=
  fold_left f xs init.

(** ** The ordered map behind [StableBTreeMap] *)

Module StableBTreeMap.

Section Entries.

Variable V : Type.

Definition t : Type := list (string * V).

Definition empty : t := [].

Fixpoint get (k : string) (m : t) : option V :=
  match m with
  | [] => None
  | (k', v) :: rest => if String.eqb k k' then Some v else get k rest
  end.

(** Insert-or-replace, keeping the keys ascending. *)
Fixpoint put (k : string) (v : V) (m : t) : t :=
  match m with
  | [] => [(k, v)]
  | (k', v') :: rest =>
      match String.compare k k' with
      | Lt => (k, v) :: (k', v') :: rest
      | Eq => (k, v) :: rest
      | Gt => (k', v') :: put k v rest
      end
  end.

Fixpoint remove (k : string) (m : t) : t :=
  match m with
  | [] => []
  | (k', v) :: rest => if String.eqb k k' then rest else (k', v) :: remove k rest
  end.

Definition values (m : t) : list V := map snd m.

(** Every key of [m] lies strictly above [k]. *)
Definition above (k : string) (m : t) : Prop :=
  Forall (fun e => String.compare k (fst e) = Lt) m.

Fixpoint ascending (m : t) : Prop :=
  match m with
  | [] => True
  | (k, _) :: rest => above k rest /\ ascending rest
  end.

End Entries.

Arguments empty {V}.

End StableBTreeMap.

(** ** Records of the canister *)

Record EnergyUsageData : Type := {
  date : nat64;
  consumption : float
}.

Record EnergyAssessment : Type := {
  id : string;
  homeOwner : Principal;
  address : string;
  assessmentDate : nat64;
  efficiencyRating : float;
  recommendations : string;
  costSavings : float;
  createdAt : nat64;
  updatedAt : option nat64;
  energyUsageHistory : list EnergyUsageData
}.

(** [EnergyAssessmentPayload]: its fields carry the names of the assessment's,
    so they live in a module of their own. *)
Module Payload.

Record t : Type := {
  address : string;
  efficiencyRating : float;
  recommendations : string;
  costSavings : float
}.

End Payload.

Definition EnergyAssessmentPayload : Type := Payload.t.

(** What one call observes of the platform: [ic.time()] (constant within the
    execution of one message), [ic.caller()], and the string [uuidv4()]
    returns to it. *)
Record Call : Type := {
  ic_time : nat64;
  ic_caller : Principal;
  uuidv4 : string
}.

Definition Store : Type := StableBTreeMap.t EnergyAssessment.

(** The outcome of an update call: it replies with a [Result] and the storage
    it leaves, or an exception escapes it, the call traps and the platform
    keeps the storage of before the call. *)
Inductive Outcome (A : Type) : Type :=
| Reply (result : Result A string) (storage : Store)
| Trap (error : string).

Arguments Reply {A} result storage.
Arguments Trap {A} error.

(** The storage after an update call that started from [st]. *)
Definition commit {A : Type} (st : Store) (o : Outcome A) : Store :=
  match o with
  | Reply _ st' => st'
  | Trap _ => st
  end.

(** The text of the template literal
    [`Energy Assessment with ID=${id} not found.`]. *)
Definition not_found (id : string) : string :=
  "Energy Assessment with ID=" ++ id ++ " not found.".

(** ** The canister *)

Section Canister.

(** [energyAssessmentStorage = new StableBTreeMap(0, 44, 1024)]: the map takes
    keys of at most 44 bytes and values of at most 1024 bytes in serialised
    form, and [insert] throws on an entry it cannot take. The serialisation
    is the library's; [thrown st k v] is the text of the error [insert]
    throws for entry [(k, v)] on storage [st], [None] when it takes it. *)
Variable thrown : Store -> string -> EnergyAssessment -> option string.

Definition insert (k : string) (v : EnergyAssessment) (st : Store)
  : Result Store string :=
  match thrown st k v with
  | Some error => Err error
  | None => Ok (StableBTreeMap.put k v st)
  end.

(** The record [createEnergyAssessment] builds. *)
Definition assessed (c : Call) (payload : EnergyAssessmentPayload)
  : EnergyAssessment :=
  {| id := uuidv4 c;
     createdAt := ic_time c;
     updatedAt := None;
     homeOwner := ic_caller c;
     assessmentDate := ic_time c;
     energyUsageHistory := [];
     address := Payload.address payload;
     efficiencyRating := Payload.efficiencyRating payload;
     recommendations := or_else (Payload.recommendations payload) "";
     costSavings := Payload.costSavings payload |}.

Definition createEnergyAssessment (c : Call) (payload : EnergyAssessmentPayload)
  (st : Store) : Outcome EnergyAssessment :=
  if negb (truthy (Payload.address payload))
     || PrimFloat.leb (Payload.efficiencyRating payload) 0%float
     || PrimFloat.leb (Payload.costSavings payload) 0%float
  then Reply (Err "Missing or invalid fields in the payload.") st
  else
    let assessment := assessed c payload in
    match insert (id assessment) assessment st with
    | Ok st' => Reply (Ok assessment) st'
    | Err error =>
        Reply (Err ("Failed to create the energy assessment: " ++ error)) st
    end.

Definition getEnergyAssessment (id : string) (st : Store)
  : Result EnergyAssessment string :=
  if negb (truthy id) then Err "Invalid ID format."
  else
    match StableBTreeMap.get id st with
    | Some assessment => Ok assessment
    | None => Err (not_found id)
    end.

Definition getAllEnergyAssessments (st : Store)
  : Result (list EnergyAssessment) string :=
  Ok (StableBTreeMap.values st).

(** [{...existingAssessment, ...payload, updatedAt: Opt.Some(ic.time())}] *)
Definition merged (c : Call) (existingAssessment : EnergyAssessment)
  (payload : EnergyAssessmentPayload) : EnergyAssessment :=
  {| id := id existingAssessment;
     homeOwner := homeOwner existingAssessment;
     address := Payload.address payload;
     assessmentDate := assessmentDate existingAssessment;
     efficiencyRating := Payload.efficiencyRating payload;
     recommendations := Payload.recommendations payload;
     costSavings := Payload.costSavings payload;
     createdAt := createdAt existingAssessment;
     updatedAt := Some (ic_time c);
     energyUsageHistory := energyUsageHistory existingAssessment |}.

Definition updateEnergyAssessment (c : Call) (id' : string)
  (payload : EnergyAssessmentPayload) (st : Store) : Outcome EnergyAssessment :=
  if negb (truthy id') then Reply (Err "ID is required.") st
  else
    match StableBTreeMap.get id' st with
    | Some existingAssessment =>
        let updatedAssessment := merged c existingAssessment payload in
        match insert (id updatedAssessment) updatedAssessment st with
        | Ok st' => Reply (Ok updatedAssessment) st'
        | Err error =>
            Reply (Err ("Failed to update the energy assessment: " ++ error)) st
        end
    | None => Reply (Err (not_found id')) st
    end.

Definition deleteEnergyAssessment (id : string) (st : Store)
  : Outcome EnergyAssessment :=
  if negb (truthy id) then Reply (Err "ID is required.") st
  else
    match StableBTreeMap.get id st with
    | Some existingAssessment =>
        Reply (Ok existingAssessment) (StableBTreeMap.remove id st)
    | None => Reply (Err (not_found id)) st
    end.

(** [assessment.energyUsageHistory.push({ date, consumption })] on the copy
    that [get] handed out. *)
Definition pushed (assessment : EnergyAssessment) (date : nat64)
  (consumption : float) : EnergyAssessment :=
  {| id := id assessment;
     homeOwner := homeOwner assessment;
     address := address assessment;
     assessmentDate := assessmentDate assessment;
     efficiencyRating := efficiencyRating assessment;
     recommendations := recommendations assessment;
     costSavings := costSavings assessment;
     createdAt := createdAt assessment;
     updatedAt := updatedAt assessment;
     energyUsageHistory :=
       energyUsageHistory assessment
         ++ [ {| date := date; consumption := consumption |} ] |}.

(** No [try] around the [insert] here: what it throws escapes the method. *)
Definition addEnergyUsage (id : string) (date : nat64) (consumption : float)
  (st : Store) : Outcome EnergyAssessment :=
  if negb (truthy id) then Reply (Err "ID is required.") st
  else
    match StableBTreeMap.get id st with
    | Some assessment =>
        let assessment' := pushed assessment date consumption in
        match insert id assessment' st with
        | Ok st' => Reply (Ok assessment') st'
        | Err error => Trap error
        end
    | None => Reply (Err (not_found id)) st
    end.

Definition getEnergyUsageHistory (id : string) (st : Store)
  : Result (list EnergyUsageData) string :=
  if negb (truthy id) then Err "Invalid ID format."
  else
    match StableBTreeMap.get id st with
    | Some assessment => Ok (energyUsageHistory assessment)
    | None => Err (not_found id)
    end.

Definition calculateTotalConsumption (id : string) (st : Store)
  : Result float string :=
  if negb (truthy id) then Err "Invalid ID format."
  else
    match StableBTreeMap.get id st with
    | Some assessment =>
        let totalConsumption :=
          reduce (fun total data => PrimFloat.add total (consumption data))
                 0%float (energyUsageHistory assessment) in
        Ok totalConsumption
    | None => Err (not_found id)
    end.

Definition getHighEfficiencyAssessments (threshold : float) (st : Store)
  : Result (list EnergyAssessment) string :=
  if PrimFloat.leb threshold 0%float
  then Err "Invalid threshold value. Threshold must be greater than 0."
  else
    let highEfficiencyAssessments :=
      filter (fun assessment => geb (efficiencyRating assessment) threshold)
             (StableBTreeMap.values st) in
    Ok highEfficiencyAssessments.

(** ** Histories of the canister *)

(** The four update methods, as requests. *)
Inductive Update : Type :=
| CreateEnergyAssessment (payload : EnergyAssessmentPayload)
| UpdateEnergyAssessment (id : string) (payload : EnergyAssessmentPayload)
| DeleteEnergyAssessment (id : string)
| AddEnergyUsage (id : string) (date : nat64) (consumption : float).

Definition perform (c : Call) (u : Update) (st : Store)
  : Outcome EnergyAssessment :=
  match u with
  | CreateEnergyAssessment payload => createEnergyAssessment c payload st
  | UpdateEnergyAssessment id payload => updateEnergyAssessment c id payload st
  | DeleteEnergyAssessment id => deleteEnergyAssessment id st
  | AddEnergyUsage id date consumption => addEnergyUsage id date consumption st
  end.

(** [reachable now st]: the storage [st] results from update calls on the
    canister as deployed, the last of them at time [now]. The platform's
    clock never runs backwards and [uuidv4] never returns the empty string;
    nothing else is assumed of either. *)
Inductive reachable : nat64 -> Store -> Prop :=
| reachable_deployed : reachable 0 StableBTreeMap.empty
| reachable_called (now : nat64) (st : Store) (c : Call) (u : Update) :
    reachable now st ->
    now <= ic_time c ->
    uuidv4 c <> "" ->
    reachable (ic_time c) (commit st (perform c u st)).

(** The readings [(date, consumption)] of a run of [addEnergyUsage] calls on
    one id, each starting from the storage the one before committed; [None]
    as soon as a call does not reply with [Ok]. *)
Fixpoint addEnergyUsage_each (id : string) (calls : list (nat64 * float))
  (st : Store) : option Store :=
  match calls with
  | [] => Some st
  | (date, consumption) :: calls' =>
      match addEnergyUsage id date consumption st with
      | Reply (Ok _) st' => addEnergyUsage_each id calls' st'
      | _ => None
      end
  end.

End Canister.

(** The reading a call [addEnergyUsage(id, date, consumption)] pushes. *)
Definition reading (call : nat64 * float) : EnergyUsageData :=
  {| date := fst call; consumption := snd call |}.

(** ** Invariants of the storage *)

(** A record sits under its own id, and no key is the empty string. *)
Definition keyed (e : string * EnergyAssessment) : Prop :=
  fst e <> "" /\ id (snd e) = fst e.

(** No time stamp of the record lies after [now]. *)
Definition stamped_by (now : nat64) (a : EnergyAssessment) : Prop :=
  createdAt a <= now /\
  assessmentDate a <= now /\
  match updatedAt a with
  | Some t => t <= now
  | None => True
  end.

Definition consistent (st : Store) : Prop :=
  StableBTreeMap.ascending st /\ Forall keyed st.

Definition stamped (now : nat64) (st : Store) : Prop :=
  Forall (fun e => stamped_by now (snd e)) st.

(** ** The creation preconditions, in the specification's words *)

Definition valid_payload (payload : EnergyAssessmentPayload) : Prop :=
  Payload.address payload <> "" /\
  PrimFloat.ltb 0%float (Payload.efficiencyRating payload) = true /\
  PrimFloat.ltb 0%float (Payload.costSavings payload) = true.

(** The sum of the consumption values of a history, in the specification's
    words: nothing for the empty history, and the sum of the earlier readings
    plus the last one otherwise. [sum_backwards] takes the history newest
    reading first. *)
Fixpoint sum_backwards (newest_first : list EnergyUsageData) : float :=
  match newest_first with
  | [] => 0%float
  | last :: earlier => PrimFloat.add (sum_backwards earlier) (consumption last)
  end.

Definition consumption_sum (history : list EnergyUsageData) : float :=
  sum_backwards (rev history).

(** * Properties *)

(** ** The order on keys *)

Lemma compare_refl (k : string) : String.compare k k = Eq.
Proof.
  pose proof (String.compare_antisym k k) as H.
  destruct (String.compare k k); simpl in H; congruence.
Qed.

Lemma compare_Eq (k k' : string) : String.compare k k' = Eq <-> k = k'.
Proof.
  split; [apply String.compare_eq_iff | intros ->; apply compare_refl].
Qed.

Lemma compare_Lt_trans (a b c : string) :
  String.compare a b = Lt -> String.compare b c = Lt -> String.compare a c = Lt.
Proof.
  intros Hab Hbc.
  apply String_as_OT.cmp_lt. apply String_as_OT.cmp_lt in Hab, Hbc.
  exact (@String_as_OT.lt_trans a b c Hab Hbc).
Qed.

Lemma compare_Gt_Lt (a b : string) :
  String.compare a b = Gt -> String.compare b a = Lt.
Proof.
  intros H. rewrite String.compare_antisym, H. reflexivity.
Qed.

Lemma compare_Lt_neq (a b : string) : String.compare a b = Lt -> a <> b.
Proof.
  intros H ->. rewrite compare_refl in H. discriminate.
Qed.

Lemma truthy_nonempty (s : string) : truthy s = true <-> s <> "".
Proof.
  destruct s; simpl; split; congruence.
Qed.

Lemma or_else_empty (s : string) : or_else s "" = s.
Proof.
  destruct s; reflexivity.
Qed.

(** ** The ordered map *)

Section MapFacts.

Import StableBTreeMap.

Variable V : Type.

Implicit Types (k : string) (v : V) (m : StableBTreeMap.t V).

Lemma get_put_same k v m : get k (put k v m) = Some v.
Proof.
  induction m as [|[k' v'] rest IH]; simpl.
  - now rewrite String.eqb_refl.
  - destruct (String.compare k k') eqn:E; simpl.
    + now rewrite String.eqb_refl.
    + now rewrite String.eqb_refl.
    + apply compare_Gt_Lt, compare_Lt_neq in E.
      apply not_eq_sym, String.eqb_neq in E. now rewrite E.
Qed.

Lemma get_put_other k k' v m : k <> k' -> get k' (put k v m) = get k' m.
Proof.
  intros Hne. assert (Hb : String.eqb k' k = false).
  { apply String.eqb_neq. congruence. }
  induction m as [|[k0 v0] rest IH]; simpl.
  - now rewrite Hb.
  - destruct (String.compare k k0) eqn:E; simpl.
    + apply compare_Eq in E. subst k0. now rewrite Hb.
    + now rewrite Hb.
    + now rewrite IH.
Qed.

Lemma above_trans k k' m :
  String.compare k k' = Lt -> above k' m -> above k m.
Proof.
  intros Hlt Hm. unfold above in *.
  eapply Forall_impl; [|exact Hm].
  intros e He. eapply compare_Lt_trans; eauto.
Qed.

Lemma above_get k m : above k m -> get k m = None.
Proof.
  induction 1 as [|[k' v'] rest Hk _ IH]; simpl; [reflexivity|].
  apply compare_Lt_neq, String.eqb_neq in Hk. simpl in Hk. now rewrite Hk.
Qed.

Lemma above_put k0 k v m :
  String.compare k0 k = Lt -> above k0 m -> above k0 (put k v m).
Proof.
  intros Hlt. induction 1 as [|[k' v'] rest Hk Hrest IH]; simpl.
  - repeat constructor. exact Hlt.
  - destruct (String.compare k k'); repeat (constructor; simpl); auto.
Qed.

Lemma ascending_put k v m : ascending m -> ascending (put k v m).
Proof.
  induction m as [|[k' v'] rest IH]; simpl.
  - intros _. split; [constructor | exact I].
  - intros [Habove Hasc]. destruct (String.compare k k') eqn:E; simpl.
    + apply compare_Eq in E. subst k'. auto.
    + split; [|auto]. constructor; [exact E|].
      eapply above_trans; eauto.
    + split; [|auto]. apply above_put; [apply compare_Gt_Lt, E | exact Habove].
Qed.

Lemma above_remove k0 k m : above k0 m -> above k0 (remove k m).
Proof.
  induction 1 as [|[k' v'] rest Hk Hrest IH]; simpl; [constructor|].
  destruct (String.eqb k k'); [exact Hrest | constructor; auto].
Qed.

Lemma ascending_remove k m : ascending m -> ascending (remove k m).
Proof.
  induction m as [|[k' v'] rest IH]; simpl; [auto|].
  intros [Habove Hasc]. destruct (String.eqb k k'); simpl; [exact Hasc|].
  split; [apply above_remove, Habove | auto].
Qed.

Lemma get_remove_same k m : ascending m -> get k (remove k m) = None.
Proof.
  induction m as [|[k' v'] rest IH]; simpl; [reflexivity|].
  intros [Habove Hasc]. destruct (String.eqb k k') eqn:E; simpl.
  - apply String.eqb_eq in E. subst k'. now apply above_get.
  - rewrite E. auto.
Qed.

Lemma get_remove_other k k' m : k <> k' -> get k' (remove k m) = get k' m.
Proof.
  intros Hne. induction m as [|[k0 v0] rest IH]; simpl; [reflexivity|].
  destruct (String.eqb k k0) eqn:E; simpl.
  - apply String.eqb_eq in E. subst k0.
    assert (Hb : String.eqb k' k = false) by (apply String.eqb_neq; congruence).
    now rewrite Hb.
  - now rewrite IH.
Qed.

Lemma get_In k v m : get k m = Some v -> In (k, v) m.
Proof.
  induction m as [|[k' v'] rest IH]; simpl; [discriminate|].
  destruct (String.eqb k k') eqn:E.
  - apply String.eqb_eq in E. intros [= ->]. left. congruence.
  - auto.
Qed.

Lemma Forall_put (P : string * V -> Prop) k v m :
  P (k, v) -> Forall P m -> Forall P (put k v m).
Proof.
  intros Hkv. induction 1 as [|[k' v'] rest Hk Hrest IH]; simpl.
  - auto.
  - destruct (String.compare k k'); auto.
Qed.

Lemma Forall_remove (P : string * V -> Prop) k m :
  Forall P m -> Forall P (remove k m).
Proof.
  induction 1 as [|[k' v'] rest Hk Hrest IH]; simpl; [constructor|].
  destruct (String.eqb k k'); auto.
Qed.

Lemma get_Forall (P : string * V -> Prop) k v m :
  Forall P m -> get k m = Some v -> P (k, v).
Proof.
  intros HP Hget. apply get_In in Hget.
  rewrite Forall_forall in HP. auto.
Qed.

End MapFacts.

(** ** Comparisons of [number]s with zero *)

(** [x > 0] rules out [x <= 0]; a NaN satisfies neither. *)
Lemma positive_not_leb_zero (x : float) :
  PrimFloat.ltb 0%float x = true -> PrimFloat.leb x 0%float = false.
Proof.
  rewrite ltb_spec, leb_spec.
  change (Prim2SF 0%float) with (S754_zero false).
  destruct (Prim2SF x) as [[|]|[|]| |[|] m e]; cbn; congruence.
Qed.

Lemma valid_payload_passes (payload : EnergyAssessmentPayload) :
  valid_payload payload ->
  negb (truthy (Payload.address payload))
  || PrimFloat.leb (Payload.efficiencyRating payload) 0%float
  || PrimFloat.leb (Payload.costSavings payload) 0%float = false.
Proof.
  intros (Haddr & Hrating & Hsavings).
  apply truthy_nonempty in Haddr.
  rewrite Haddr, (positive_not_leb_zero Hrating),
    (positive_not_leb_zero Hsavings).
  reflexivity.
Qed.

(** ** The sum of a history *)

Lemma consumption_sum_nil : consumption_sum [] = 0%float.
Proof. reflexivity. Qed.

Lemma consumption_sum_snoc (history : list EnergyUsageData) (data : EnergyUsageData) :
  consumption_sum (history ++ [data])
  = PrimFloat.add (consumption_sum history) (consumption data).
Proof.
  unfold consumption_sum. rewrite rev_app_distr. reflexivity.
Qed.

Lemma reduce_snoc {A B : Type} (f : B -> A -> B) (init : B) (xs : list A) (x : A) :
  reduce f init (xs ++ [x]) = f (reduce f init xs) x.
Proof.
  unfold reduce. rewrite fold_left_app. reflexivity.
Qed.

Lemma reduce_consumption_sum (history : list EnergyUsageData) :
  reduce (fun total data => PrimFloat.add total (consumption data)) 0%float history
  = consumption_sum history.
Proof.
  induction history as [|data history IH] using rev_ind.
  - reflexivity.
  - rewrite reduce_snoc, consumption_sum_snoc, IH. reflexivity.
Qed.

(** ** The invariants hold of every reachable storage *)

Section CanisterFacts.

Variable thrown : Store -> string -> EnergyAssessment -> option string.

Lemma stamped_by_later (now now' : nat64) (a : EnergyAssessment) :
  now <= now' -> stamped_by now a -> stamped_by now' a.
Proof.
  unfold stamped_by. intros Hle (Hc & Ha & Hu).
  destruct (updatedAt a); repeat split; lia.
Qed.

Lemma stamped_later (now now' : nat64) (st : Store) :
  now <= now' -> stamped now st -> stamped now' st.
Proof.
  intros Hle. unfold stamped. apply Forall_impl.
  intros e. now apply stamped_by_later.
Qed.

Lemma consistent_get (st : Store) (k : string) (a : EnergyAssessment) :
  consistent st -> StableBTreeMap.get k st = Some a -> k <> "" /\ id a = k.
Proof.
  intros [_ Hkeyed] Hget. exact (get_Forall k Hkeyed Hget).
Qed.

Lemma consistent_put (st : Store) (k : string) (a : EnergyAssessment) :
  k <> "" -> id a = k -> consistent st -> consistent (StableBTreeMap.put k a st).
Proof.
  intros Hk Hid [Hasc Hkeyed]. split.
  - now apply ascending_put.
  - apply Forall_put; [split; assumption | assumption].
Qed.

Lemma consistent_remove (st : Store) (k : string) :
  consistent st -> consistent (StableBTreeMap.remove k st).
Proof.
  intros [Hasc Hkeyed]. split.
  - now apply ascending_remove.
  - now apply Forall_remove.
Qed.

Lemma perform_consistent (c : Call) (u : Update) (st : Store) :
  uuidv4 c <> "" -> consistent st -> consistent (commit st (perform thrown c u st)).
Proof.
  intros Huuid Hst. destruct u as [payload | k payload | k | k d x]; simpl.
  - unfold createEnergyAssessment, insert.
    destruct (_ || _); [exact Hst|]. simpl.
    destruct (thrown _ _ _); simpl; [exact Hst|].
    now apply consistent_put.
  - unfold updateEnergyAssessment, insert.
    destruct (negb (truthy k)); [exact Hst|].
    destruct (StableBTreeMap.get k st) as [r|] eqn:Hget; [|exact Hst].
    destruct (consistent_get k Hst Hget) as [Hk Hid].
    destruct (thrown _ _ _); simpl; [exact Hst|].
    apply consistent_put; simpl; congruence.
  - unfold deleteEnergyAssessment.
    destruct (negb (truthy k)); [exact Hst|].
    destruct (StableBTreeMap.get k st); simpl; [|exact Hst].
    now apply consistent_remove.
  - unfold addEnergyUsage, insert.
    destruct (negb (truthy k)); [exact Hst|].
    destruct (StableBTreeMap.get k st) as [r|] eqn:Hget; [|exact Hst].
    destruct (consistent_get k Hst Hget) as [Hk Hid].
    destruct (thrown _ _ _); simpl; [exact Hst|].
    now apply consistent_put.
Qed.

Lemma perform_stamped (c : Call) (u : Update) (now : nat64) (st : Store) :
  now <= ic_time c -> stamped now st ->
  stamped (ic_time c) (commit st (perform thrown c u st)).
Proof.
  intros Hle Hst. pose proof (stamped_later Hle Hst) as Hst'.
  destruct u as [payload | k payload | k | k d x]; simpl.
  - unfold createEnergyAssessment, insert.
    destruct (_ || _); [exact Hst'|]. simpl.
    destruct (thrown _ _ _); simpl; [exact Hst'|].
    apply Forall_put; [|exact Hst'].
    unfold stamped_by; simpl. repeat split; lia.
  - unfold updateEnergyAssessment, insert.
    destruct (negb (truthy k)); [exact Hst'|].
    destruct (StableBTreeMap.get k st) as [r|] eqn:Hget; [|exact Hst'].
    destruct (thrown _ _ _); simpl; [exact Hst'|].
    apply Forall_put; [|exact Hst'].
    destruct (get_Forall k Hst' Hget) as (Hc & Ha & _).
    unfold stamped_by; simpl in *. repeat split; lia.
  - unfold deleteEnergyAssessment.
    destruct (negb (truthy k)); [exact Hst'|].
    destruct (StableBTreeMap.get k st); simpl; [|exact Hst'].
    now apply Forall_remove.
  - unfold addEnergyUsage, insert.
    destruct (negb (truthy k)); [exact Hst'|].
    destruct (StableBTreeMap.get k st) as [r|] eqn:Hget; [|exact Hst'].
    destruct (thrown _ _ _); simpl; [exact Hst'|].
    apply Forall_put; [|exact Hst'].
    exact (get_Forall k Hst' Hget).
Qed.

Lemma reachable_consistent (now : nat64) (st : Store) :
  reachable thrown now st -> consistent st.
Proof.
  induction 1 as [|now st c u _ IH _ Huuid].
  - split; [exact I | constructor].
  - now apply perform_consistent.
Qed.

Lemma reachable_stamped (now : nat64) (st : Store) :
  reachable thrown now st -> stamped now st.
Proof.
  induction 1 as [|now st c u _ IH Hle _].
  - constructor.
  - eapply perform_stamped; eassumption.
Qed.

(** In a reachable storage a record is found under a non-empty key only,
    and that key is its id. *)
Lemma reachable_get (now : nat64) (st : Store) (k : string) (a : EnergyAssessment) :
  reachable thrown now st -> StableBTreeMap.get k st = Some a ->
  truthy k = true /\ id a = k.
Proof.
  intros Hreach Hget.
  destruct (consistent_get k (reachable_consistent Hreach) Hget) as [Hk Hid].
  split; [now apply truthy_nonempty | exact Hid].
Qed.

(** What the guard of [createEnergyAssessment] lets through is built,
    offered to the storage, and returned once the storage has taken it. *)
Lemma create_replies (c : Call) (payload : EnergyAssessmentPayload) (st : Store) :
  valid_payload payload ->
  createEnergyAssessment thrown c payload st
  = match thrown st (uuidv4 c) (assessed c payload) with
    | None =>
        Reply (Ok (assessed c payload))
              (StableBTreeMap.put (uuidv4 c) (assessed c payload) st)
    | Some error =>
        Reply (Err ("Failed to create the energy assessment: " ++ error)) st
    end.
Proof.
  intros Hvalid. unfold createEnergyAssessment, insert.
  rewrite (valid_payload_passes Hvalid). simpl.
  destruct (thrown _ _ _); reflexivity.
Qed.

Lemma create_ok_inv (c : Call) (payload : EnergyAssessmentPayload)
  (st st' : Store) (a : EnergyAssessment) :
  createEnergyAssessment thrown c payload st = Reply (Ok a) st' ->
  a = assessed c payload /\ st' = StableBTreeMap.put (uuidv4 c) a st.
Proof.
  unfold createEnergyAssessment, insert.
  destruct (_ || _); [discriminate|]. simpl.
  destruct (thrown _ _ _); [discriminate|].
  intros [= <- <-]. split; reflexivity.
Qed.

(** ** Creation *)

(** C1, amended. For every payload that satisfies the creation
    preconditions (non-empty address, efficiencyRating > 0, costSavings > 0),
    in a call whose [uuidv4()] is not the empty string:
    [createEnergyAssessment] returns the record it built whenever the
    storage takes the write, and whenever it returns a record,
    [getEnergyAssessment] with the id of that record returns a record equal
    to it. *)
Theorem create_then_get (c : Call) (payload : EnergyAssessmentPayload) (st : Store) :
  valid_payload payload ->
  uuidv4 c <> "" ->
  (thrown st (uuidv4 c) (assessed c payload) = None ->
   exists st', createEnergyAssessment thrown c payload st
               = Reply (Ok (assessed c payload)) st') /\
  (forall a st',
     createEnergyAssessment thrown c payload st = Reply (Ok a) st' ->
     getEnergyAssessment (id a) st' = Ok a).
Proof.
  intros Hvalid Huuid. split.
  - intros Htaken. rewrite (create_replies c st Hvalid), Htaken. eauto.
  - intros a st' Hcreate.
    destruct (create_ok_inv _ _ _ Hcreate) as [-> ->].
    unfold getEnergyAssessment. simpl.
    apply truthy_nonempty in Huuid. rewrite Huuid. simpl.
    now rewrite get_put_same.
Qed.

(** C3. For every payload with an empty address, or efficiencyRating <= 0, or
    costSavings <= 0, [createEnergyAssessment] returns an error result and
    the storage is left exactly as it was before the call. *)
Theorem create_rejects_invalid (c : Call) (payload : EnergyAssessmentPayload)
  (st : Store) :
  Payload.address payload = ""
  \/ PrimFloat.leb (Payload.efficiencyRating payload) 0%float = true
  \/ PrimFloat.leb (Payload.costSavings payload) 0%float = true ->
  createEnergyAssessment thrown c payload st
  = Reply (Err "Missing or invalid fields in the payload.") st
  /\ commit st (createEnergyAssessment thrown c payload st) = st.
Proof.
  intros Hinvalid.
  assert (Hguard : negb (truthy (Payload.address payload))
                   || PrimFloat.leb (Payload.efficiencyRating payload) 0%float
                   || PrimFloat.leb (Payload.costSavings payload) 0%float = true).
  { destruct Hinvalid as [-> | [-> | ->]]; simpl.
    - reflexivity.
    - now rewrite orb_true_r.
    - now rewrite orb_true_r. }
  unfold createEnergyAssessment. rewrite Hguard. split; reflexivity.
Qed.

(** C8. Every record returned by a successful [createEnergyAssessment] has
    createdAt equal to assessmentDate, both the time of the call, updatedAt
    absent, homeOwner the caller of the call, and an empty
    energyUsageHistory. *)
Theorem created_record_is_fresh (c : Call) (payload : EnergyAssessmentPayload)
  (st st' : Store) (a : EnergyAssessment) :
  createEnergyAssessment thrown c payload st = Reply (Ok a) st' ->
  createdAt a = assessmentDate a /\
  createdAt a = ic_time c /\
  updatedAt a = None /\
  homeOwner a = ic_caller c /\
  energyUsageHistory a = [].
Proof.
  intros Hcreate. destruct (create_ok_inv _ _ _ Hcreate) as [-> _].
  repeat split.
Qed.

(** ** Queries *)

(** C4. For every threshold t > 0, [getHighEfficiencyAssessments] returns
    exactly the stored records whose efficiencyRating >= t, in the order the
    storage lists them; for every t <= 0 it returns the validation error,
    whatever the storage holds. *)
Theorem high_efficiency_is_filter (threshold : float) (st : Store) :
  (PrimFloat.ltb 0%float threshold = true ->
   forall all, getAllEnergyAssessments st = Ok all ->
   getHighEfficiencyAssessments threshold st
   = Ok (filter (fun a => geb (efficiencyRating a) threshold) all)) /\
  (PrimFloat.leb threshold 0%float = true ->
   forall st' : Store,
   getHighEfficiencyAssessments threshold st'
   = Err "Invalid threshold value. Threshold must be greater than 0.").
Proof.
  split.
  - intros Hpos all [= <-]. unfold getHighEfficiencyAssessments.
    now rewrite (positive_not_leb_zero Hpos).
  - intros Hnonpos st'. unfold getHighEfficiencyAssessments.
    now rewrite Hnonpos.
Qed.

(** C5. For every existing record of a reachable storage,
    [calculateTotalConsumption] returns the sum of the consumption values
    over its energyUsageHistory, added up in binary64 from the oldest
    reading on, and 0 when the history is empty. *)
Theorem total_consumption_is_sum (now : nat64) (st : Store) (k : string)
  (r : EnergyAssessment) :
  reachable thrown now st ->
  StableBTreeMap.get k st = Some r ->
  calculateTotalConsumption k st = Ok (consumption_sum (energyUsageHistory r)) /\
  (energyUsageHistory r = [] -> calculateTotalConsumption k st = Ok 0%float).
Proof.
  intros Hreach Hget. destruct (reachable_get k Hreach Hget) as [Hk _].
  assert (Htotal : calculateTotalConsumption k st
                   = Ok (consumption_sum (energyUsageHistory r))).
  { unfold calculateTotalConsumption. rewrite Hk, Hget. simpl.
    now rewrite reduce_consumption_sum. }
  split; [exact Htotal|].
  intros Hempty. rewrite Htotal, Hempty. reflexivity.
Qed.

(** ** Updates of a stored record *)

(** On an existing record of a reachable storage the outcome of
    [updateEnergyAssessment] is decided by the storage alone. *)
Lemma update_replies (now : nat64) (st : Store) (c : Call) (k : string)
  (payload : EnergyAssessmentPayload) (r : EnergyAssessment) :
  reachable thrown now st ->
  StableBTreeMap.get k st = Some r ->
  updateEnergyAssessment thrown c k payload st
  = match thrown st k (merged c r payload) with
    | None =>
        Reply (Ok (merged c r payload))
              (StableBTreeMap.put k (merged c r payload) st)
    | Some error =>
        Reply (Err ("Failed to update the energy assessment: " ++ error)) st
    end.
Proof.
  intros Hreach Hget. destruct (reachable_get k Hreach Hget) as [Hk Hid].
  unfold updateEnergyAssessment, insert. rewrite Hk, Hget. simpl.
  rewrite Hid. destruct (thrown _ _ _); reflexivity.
Qed.

(** C2, amended. For every existing record of a reachable storage, an
    [updateEnergyAssessment] at a time not before the last call, whose write
    the storage takes, returns and stores a record whose id,
    homeOwner, createdAt and energyUsageHistory are those of the prior
    record, whose address, efficiencyRating, recommendations and costSavings
    come from the payload, and whose updatedAt is the time of the call, which
    is not before the prior createdAt and updatedAt. *)
Theorem update_merges_and_restamps (now : nat64) (st : Store) (c : Call)
  (k : string) (payload : EnergyAssessmentPayload) (r : EnergyAssessment) :
  reachable thrown now st ->
  now <= ic_time c ->
  StableBTreeMap.get k st = Some r ->
  thrown st k (merged c r payload) = None ->
  exists a st',
    updateEnergyAssessment thrown c k payload st = Reply (Ok a) st' /\
    StableBTreeMap.get k st' = Some a /\
    id a = id r /\
    homeOwner a = homeOwner r /\
    createdAt a = createdAt r /\
    energyUsageHistory a = energyUsageHistory r /\
    address a = Payload.address payload /\
    efficiencyRating a = Payload.efficiencyRating payload /\
    recommendations a = Payload.recommendations payload /\
    costSavings a = Payload.costSavings payload /\
    updatedAt a = Some (ic_time c) /\
    createdAt r <= ic_time c /\
    (forall t, updatedAt r = Some t -> t <= ic_time c).
Proof.
  intros Hreach Hle Hget Htaken.
  exists (merged c r payload), (StableBTreeMap.put k (merged c r payload) st).
  rewrite (@update_replies now st c k payload r Hreach Hget), Htaken.
  rewrite get_put_same.
  destruct (get_Forall k (reachable_stamped Hreach) Hget) as (Hc & _ & Hu).
  simpl in Hc, Hu. repeat split; try reflexivity.
  - lia.
  - intros t Ht. rewrite Ht in Hu. lia.
Qed.

(** C9, amended. [updateEnergyAssessment] does not validate the payload: for
    every existing record and every payload, with an empty address or a
    rating or savings that is not positive as well, the update succeeds and
    stores the merged record whenever the storage takes the write, and the
    one error it can reply with is the failure of that write, which leaves
    the storage as it was. *)
Theorem update_does_not_validate (now : nat64) (st : Store) (c : Call)
  (k : string) (payload : EnergyAssessmentPayload) (r : EnergyAssessment) :
  reachable thrown now st ->
  StableBTreeMap.get k st = Some r ->
  (thrown st k (merged c r payload) = None ->
   updateEnergyAssessment thrown c k payload st
   = Reply (Ok (merged c r payload))
           (StableBTreeMap.put k (merged c r payload) st) /\
   StableBTreeMap.get k (StableBTreeMap.put k (merged c r payload) st)
   = Some (merged c r payload)) /\
  (forall e st',
     updateEnergyAssessment thrown c k payload st = Reply (Err e) st' ->
     st' = st /\
     exists error,
       thrown st k (merged c r payload) = Some error /\
       e = "Failed to update the energy assessment: " ++ error).
Proof.
  intros Hreach Hget. rewrite (@update_replies now st c k payload r Hreach Hget). split.
  - intros ->. split; [reflexivity | apply get_put_same].
  - intros e st'. destruct (thrown _ _ _) as [error|]; [|discriminate].
    intros [= <- <-]. split; [reflexivity | eauto].
Qed.

(** C7, amended. For every non-empty id: if a record is stored under it,
    [deleteEnergyAssessment] returns that record and removes it, no other
    record is touched, and [getEnergyAssessment] on the id then returns the
    not-found error; if no record is stored under it,
    [deleteEnergyAssessment] returns the not-found error and changes
    nothing. *)
Theorem delete_then_get (now : nat64) (st : Store) (k : string) :
  reachable thrown now st ->
  k <> "" ->
  (forall r,
     StableBTreeMap.get k st = Some r ->
     deleteEnergyAssessment k st = Reply (Ok r) (StableBTreeMap.remove k st) /\
     StableBTreeMap.get k (StableBTreeMap.remove k st) = None /\
     (forall k', k' <> k ->
        StableBTreeMap.get k' (StableBTreeMap.remove k st)
        = StableBTreeMap.get k' st) /\
     getEnergyAssessment k (StableBTreeMap.remove k st) = Err (not_found k)) /\
  (StableBTreeMap.get k st = None ->
   deleteEnergyAssessment k st = Reply (Err (not_found k)) st).
Proof.
  intros Hreach Hk. apply truthy_nonempty in Hk.
  destruct (reachable_consistent Hreach) as [Hasc _].
  unfold deleteEnergyAssessment, getEnergyAssessment. rewrite Hk. simpl. split.
  - intros r Hget. rewrite Hget, (@get_remove_same _ k st Hasc).
    repeat split. intros k' Hne. apply get_remove_other. congruence.
  - intros ->. reflexivity.
Qed.

(** ** The usage history *)

Lemma add_ok_inv (k : string) (d : nat64) (x : float) (st st' : Store)
  (a : EnergyAssessment) :
  addEnergyUsage thrown k d x st = Reply (Ok a) st' ->
  truthy k = true /\
  exists r, StableBTreeMap.get k st = Some r /\
            a = pushed r d x /\ st' = StableBTreeMap.put k a st.
Proof.
  unfold addEnergyUsage, insert.
  destruct (truthy k); simpl; [|discriminate].
  destruct (StableBTreeMap.get k st) as [r|]; [|discriminate].
  destruct (thrown _ _ _); [discriminate|].
  intros [= <- <-]. eauto.
Qed.

(** C10. For every existing record, a successful [addEnergyUsage] changes
    the energyUsageHistory field only: the record it stores under the id has
    the id, homeOwner, address, assessmentDate, efficiencyRating,
    recommendations, costSavings, createdAt and updatedAt of before. *)
Theorem add_usage_changes_history_only (k : string) (d : nat64) (x : float)
  (st st' : Store) (r a : EnergyAssessment) :
  StableBTreeMap.get k st = Some r ->
  addEnergyUsage thrown k d x st = Reply (Ok a) st' ->
  StableBTreeMap.get k st' = Some a /\
  id a = id r /\
  homeOwner a = homeOwner r /\
  address a = address r /\
  assessmentDate a = assessmentDate r /\
  efficiencyRating a = efficiencyRating r /\
  recommendations a = recommendations r /\
  costSavings a = costSavings r /\
  createdAt a = createdAt r /\
  updatedAt a = updatedAt r.
Proof.
  intros Hget Hadd.
  destruct (add_ok_inv _ _ _ _ Hadd) as (_ & r' & Hget' & -> & ->).
  rewrite Hget in Hget'. injection Hget' as <-.
  rewrite get_put_same. repeat split.
Qed.

Lemma add_each_history (k : string) (calls : list (nat64 * float)) :
  forall (st st' : Store) (r : EnergyAssessment),
    StableBTreeMap.get k st = Some r ->
    addEnergyUsage_each thrown k calls st = Some st' ->
    exists r',
      StableBTreeMap.get k st' = Some r' /\
      energyUsageHistory r' = (energyUsageHistory r ++ map reading calls)%list.
Proof.
  induction calls as [|[d x] calls IH]; simpl; intros st st' r Hget Heach.
  - injection Heach as <-. exists r. now rewrite app_nil_r.
  - destruct (addEnergyUsage thrown k d x st) as [[a|e] st1|e] eqn:Hadd;
      try discriminate.
    destruct (add_ok_inv _ _ _ _ Hadd) as (_ & r0 & Hget0 & -> & ->).
    rewrite Hget in Hget0. injection Hget0 as <-.
    destruct (IH _ _ (pushed r d x) (get_put_same k _ st) Heach)
      as (r' & Hget' & Hhist).
    exists r'. split; [exact Hget'|].
    rewrite Hhist. simpl. now rewrite <- app_assoc.
Qed.

(** C6. On an existing id, each successful [addEnergyUsage] appends one
    reading {date, consumption} at the end of the history and leaves the
    readings before it in place; after every sequence of successful calls
    [getEnergyUsageHistory] returns the history of before followed by
    exactly the readings of the calls, in call order, and exactly those
    readings when the history of before is empty. *)
Theorem usage_history_in_call_order (now : nat64) (st : Store) (k : string)
  (r : EnergyAssessment) :
  reachable thrown now st ->
  StableBTreeMap.get k st = Some r ->
  (forall d x a st',
     addEnergyUsage thrown k d x st = Reply (Ok a) st' ->
     energyUsageHistory a
     = (energyUsageHistory r ++ [ {| date := d; consumption := x |} ])%list /\
     getEnergyUsageHistory k st' = Ok (energyUsageHistory a)) /\
  (forall calls st',
     addEnergyUsage_each thrown k calls st = Some st' ->
     getEnergyUsageHistory k st'
     = Ok (energyUsageHistory r ++ map reading calls)%list /\
     (energyUsageHistory r = [] ->
      getEnergyUsageHistory k st' = Ok (map reading calls))).
Proof.
  intros Hreach Hget. destruct (reachable_get k Hreach Hget) as [Hk _].
  split.
  - intros d x a st' Hadd.
    destruct (add_ok_inv _ _ _ _ Hadd) as (_ & r' & Hget' & -> & ->).
    rewrite Hget in Hget'. injection Hget' as <-.
    split; [reflexivity|].
    unfold getEnergyUsageHistory. rewrite Hk. simpl.
    now rewrite get_put_same.
  - intros calls st' Heach.
    destruct (@add_each_history k calls st st' r Hget Heach) as (r' & Hget' & Hhist).
    unfold getEnergyUsageHistory. rewrite Hk, Hget'. simpl.
    rewrite Hhist. split; [reflexivity|].
    now intros ->.
Qed.

End CanisterFacts.

(** * Scenarios *)

(** ** Two storages *)

(** A storage that takes every entry. *)
Definition roomy : Store -> string -> EnergyAssessment -> option string :=
  fun _ _ _ => None.

(** A storage that holds values to the 1024 bytes the map is declared with,
    as far as the two texts of a record go: the serialised record carries
    the bytes of both. The text of the error is the library's to choose; a
    name stands for it. *)
Definition declared : Store -> string -> EnergyAssessment -> option string :=
  fun _ _ v =>
    if 1024 <? N.of_nat (String.length (address v)
                         + String.length (recommendations v))
    then Some "ValueTooLarge"
    else None.

(** ** Calls and payloads *)

Definition first_call : Call :=
  {| ic_time := 100;
     ic_caller := "2vxsx-fae";
     uuidv4 := "9b1deb4d-3b7d-4bad-9bdd-2b0d7b3dcb6d" |}.

Definition second_call : Call :=
  {| ic_time := 200;
     ic_caller := "aaaaa-aa";
     uuidv4 := "1b9d6bcd-bbfd-4b2d-9b5d-ab8dfbbd4bed" |}.

Definition main_street : EnergyAssessmentPayload :=
  {| Payload.address := "1 Main St";
     Payload.efficiencyRating := 5%float;
     Payload.recommendations := "seal windows";
     Payload.costSavings := 200%float |}.

Definition second_street : EnergyAssessmentPayload :=
  {| Payload.address := "2 Main St";
     Payload.efficiencyRating := 9%float;
     Payload.recommendations := "";
     Payload.costSavings := 300%float |}.

Definition no_address : EnergyAssessmentPayload :=
  {| Payload.address := "";
     Payload.efficiencyRating := 5%float;
     Payload.recommendations := "";
     Payload.costSavings := 200%float |}.

(** A payload that creation would turn down on each of its three counts. *)
Definition nothing_valid : EnergyAssessmentPayload :=
  {| Payload.address := "";
     Payload.efficiencyRating := 0%float;
     Payload.recommendations := "";
     Payload.costSavings := (-1)%float |}.

(** An address of 1025 bytes. *)
Definition long_text : string :=
  String.concat "" (List.repeat "a" 1025).

Definition long_address : EnergyAssessmentPayload :=
  {| Payload.address := long_text;
     Payload.efficiencyRating := 9%float;
     Payload.recommendations := "";
     Payload.costSavings := 300%float |}.

Definition long_recommendations : EnergyAssessmentPayload :=
  {| Payload.address := "2 Main St";
     Payload.efficiencyRating := 9%float;
     Payload.recommendations := long_text;
     Payload.costSavings := 300%float |}.

(** ** Storages *)

Definition R : EnergyAssessment := assessed first_call main_street.

Definition key : string := uuidv4 first_call.

(** After [createEnergyAssessment(main_street)] on the canister as deployed. *)
Definition one_record : Store := [(key, R)].

(** After two readings on [R]. *)
Definition metered : Store :=
  [(key, pushed (pushed R 100 30%float) 200 10%float)].

(** After a second creation and an update of [R]. *)
Definition two_records : Store :=
  [(uuidv4 second_call, assessed second_call main_street);
   (key, merged second_call R second_street)].

Lemma one_record_reachable (thrown : Store -> string -> EnergyAssessment -> option string) :
  thrown [] key R = None -> reachable thrown 100 one_record.
Proof.
  intros Htaken.
  assert (Hstep : commit [] (perform thrown first_call
                               (CreateEnergyAssessment main_street) [])
                  = one_record).
  { simpl. unfold createEnergyAssessment, insert. simpl.
    change (assessed first_call main_street) with R.
    cbv [key first_call uuidv4] in Htaken. now rewrite Htaken. }
  rewrite <- Hstep.
  apply (@reachable_called thrown 0 [] first_call);
    [constructor | discriminate | discriminate].
Qed.

Lemma metered_reachable : reachable roomy 100 metered.
Proof.
  apply (@reachable_called roomy 100
           [(key, pushed R 100 30%float)] first_call
           (AddEnergyUsage key 200 10%float)); [| reflexivity | discriminate].
  apply (@reachable_called roomy 100 one_record first_call
           (AddEnergyUsage key 100 30%float)); [| reflexivity | discriminate].
  now apply one_record_reachable.
Qed.

Lemma two_records_reachable : reachable roomy 200 two_records.
Proof.
  apply (@reachable_called roomy 200
           [(uuidv4 second_call, assessed second_call main_street); (key, R)]
           second_call (UpdateEnergyAssessment key second_street));
    [| reflexivity | discriminate].
  apply (@reachable_called roomy 100 one_record second_call
           (CreateEnergyAssessment main_street)); [| discriminate | discriminate].
  now apply one_record_reachable.
Qed.

(** ** The theorems at work *)

Lemma main_street_valid : valid_payload main_street.
Proof.
  split; [discriminate | split; reflexivity].
Defined.

Lemma create_then_get_witness :
  valid_payload main_street /\
  uuidv4 first_call <> "" /\
  createEnergyAssessment roomy first_call main_street [] = Reply (Ok R) one_record /\
  getEnergyAssessment (id R) one_record = Ok R.
Proof.
  assert (Huuid : uuidv4 first_call <> "") by discriminate.
  destruct (@create_then_get roomy first_call main_street []
              main_street_valid Huuid) as [_ Hget].
  exact (conj main_street_valid
           (conj Huuid (conj eq_refl (Hget R one_record eq_refl)))).
Defined.

(** Against C1 as stated. The payload satisfies the three creation
    preconditions and the id is not empty, and yet no record is returned to
    look up: the record is over the size declared for values, the storage
    refuses it, the reply is the error of the failed write, and nothing is
    found under the id. *)
Lemma create_refused_counterexample :
  valid_payload long_address /\
  uuidv4 first_call <> "" /\
  createEnergyAssessment declared first_call long_address []
  = Reply (Err "Failed to create the energy assessment: ValueTooLarge") [] /\
  getEnergyAssessment (uuidv4 first_call)
    (commit [] (createEnergyAssessment declared first_call long_address []))
  = Err (not_found (uuidv4 first_call)).
Proof.
  split; [split; [discriminate | split; reflexivity]|].
  split; [discriminate|].
  split; vm_compute; reflexivity.
Qed.

Lemma create_rejects_invalid_witness :
  (Payload.address no_address = ""
   \/ PrimFloat.leb (Payload.efficiencyRating no_address) 0%float = true
   \/ PrimFloat.leb (Payload.costSavings no_address) 0%float = true) /\
  createEnergyAssessment declared first_call no_address one_record
  = Reply (Err "Missing or invalid fields in the payload.") one_record /\
  commit one_record (createEnergyAssessment declared first_call no_address one_record)
  = one_record.
Proof.
  assert (Hinvalid :
            Payload.address no_address = ""
            \/ PrimFloat.leb (Payload.efficiencyRating no_address) 0%float = true
            \/ PrimFloat.leb (Payload.costSavings no_address) 0%float = true)
    by (left; reflexivity).
  exact (conj Hinvalid
           (@create_rejects_invalid declared first_call no_address one_record
              Hinvalid)).
Defined.

Lemma created_record_is_fresh_witness :
  createEnergyAssessment roomy first_call main_street [] = Reply (Ok R) one_record /\
  createdAt R = assessmentDate R /\
  createdAt R = 100 /\
  updatedAt R = None /\
  homeOwner R = "2vxsx-fae" /\
  energyUsageHistory R = [].
Proof.
  exact (conj eq_refl
           (@created_record_is_fresh roomy first_call main_street []
              one_record R eq_refl)).
Defined.

Lemma high_efficiency_is_filter_witness :
  getHighEfficiencyAssessments 8%float two_records
  = Ok [merged second_call R second_street] /\
  getHighEfficiencyAssessments 0%float two_records
  = Err "Invalid threshold value. Threshold must be greater than 0.".
Proof.
  destruct (high_efficiency_is_filter 8%float two_records) as [Hpositive _].
  destruct (high_efficiency_is_filter 0%float one_record) as [_ Hzero].
  exact (conj (Hpositive eq_refl _ eq_refl) (Hzero eq_refl two_records)).
Defined.

Lemma total_consumption_is_sum_witness :
  reachable roomy 100 metered /\
  StableBTreeMap.get key metered
  = Some (pushed (pushed R 100 30%float) 200 10%float) /\
  calculateTotalConsumption key metered = Ok 40%float /\
  calculateTotalConsumption key one_record = Ok 0%float.
Proof.
  destruct (@total_consumption_is_sum roomy 100 metered key _
              metered_reachable eq_refl) as [Hsum _].
  destruct (@total_consumption_is_sum roomy 100 one_record key R
              (one_record_reachable roomy eq_refl) eq_refl) as [_ Hnone].
  exact (conj metered_reachable (conj eq_refl (conj Hsum (Hnone eq_refl)))).
Defined.

Lemma usage_history_in_call_order_witness :
  reachable roomy 100 one_record /\
  StableBTreeMap.get key one_record = Some R /\
  addEnergyUsage_each roomy key [(100, 30%float); (200, 10%float)] one_record
  = Some metered /\
  getEnergyUsageHistory key metered
  = Ok [ {| date := 100; consumption := 30%float |};
         {| date := 200; consumption := 10%float |} ].
Proof.
  destruct (@usage_history_in_call_order roomy 100 one_record key R
              (one_record_reachable roomy eq_refl) eq_refl) as [_ Hall].
  exact (conj (one_record_reachable roomy eq_refl)
           (conj eq_refl
              (conj eq_refl
                 (proj2 (Hall [(100, 30%float); (200, 10%float)] metered eq_refl)
                    eq_refl)))).
Defined.

Lemma add_usage_changes_history_only_witness :
  StableBTreeMap.get key two_records = Some (merged second_call R second_street) /\
  (exists a st',
     addEnergyUsage roomy key 300 30%float two_records = Reply (Ok a) st' /\
     StableBTreeMap.get key st' = Some a /\
     address a = "2 Main St" /\
     createdAt a = 100 /\
     updatedAt a = Some 200 /\
     energyUsageHistory a = [ {| date := 300; consumption := 30%float |} ]).
Proof.
  split; [reflexivity|].
  exists (pushed (merged second_call R second_street) 300 30%float).
  eexists.
  split; [reflexivity|].
  destruct (@add_usage_changes_history_only roomy key 300 30%float two_records
              _ (merged second_call R second_street) _ eq_refl eq_refl)
    as (Hget & _ & _ & Haddress & _ & _ & _ & _ & Hcreated & Hupdated).
  exact (conj Hget (conj Haddress (conj Hcreated (conj Hupdated eq_refl)))).
Defined.

Lemma update_merges_and_restamps_witness :
  reachable roomy 100 one_record /\
  100 <= ic_time second_call /\
  StableBTreeMap.get key one_record = Some R /\
  roomy one_record key (merged second_call R second_street) = None /\
  (exists a st',
     updateEnergyAssessment roomy second_call key second_street one_record
     = Reply (Ok a) st' /\
     StableBTreeMap.get key st' = Some a /\
     id a = key /\
     homeOwner a = "2vxsx-fae" /\
     createdAt a = 100 /\
     energyUsageHistory a = [] /\
     address a = "2 Main St" /\
     updatedAt a = Some 200).
Proof.
  assert (Hlater : 100 <= ic_time second_call) by discriminate.
  destruct (@update_merges_and_restamps roomy 100 one_record second_call key
              second_street R (one_record_reachable roomy eq_refl) Hlater
              eq_refl eq_refl)
    as (a & st' & Hupdate & Hget & Hid & Howner & Hcreated & Hhistory
        & Haddress & _ & _ & _ & Hupdated & _).
  refine (conj (one_record_reachable roomy eq_refl)
            (conj Hlater (conj eq_refl (conj eq_refl _)))).
  exists a, st'.
  exact (conj Hupdate
           (conj Hget
              (conj Hid
                 (conj Howner
                    (conj Hcreated (conj Hhistory (conj Haddress Hupdated))))))).
Defined.

(** Against C2 as stated. The record [R] exists, the payload is one that
    creation would let through, and yet nothing is returned or stored: the
    merged record is over the size declared for values, the storage refuses
    it, and [R] stays as it was. *)
Lemma update_refused_counterexample :
  reachable declared 100 one_record /\
  StableBTreeMap.get key one_record = Some R /\
  valid_payload long_address /\
  updateEnergyAssessment declared second_call key long_address one_record
  = Reply (Err "Failed to update the energy assessment: ValueTooLarge")
          one_record /\
  StableBTreeMap.get key
    (commit one_record
       (updateEnergyAssessment declared second_call key long_address one_record))
  = Some R.
Proof.
  split; [apply one_record_reachable; reflexivity|].
  split; [reflexivity|].
  split; [split; [discriminate | split; reflexivity]|].
  split; vm_compute; reflexivity.
Qed.

Lemma update_does_not_validate_witness :
  reachable roomy 100 one_record /\
  StableBTreeMap.get key one_record = Some R /\
  Payload.address nothing_valid = "" /\
  PrimFloat.leb (Payload.efficiencyRating nothing_valid) 0%float = true /\
  PrimFloat.leb (Payload.costSavings nothing_valid) 0%float = true /\
  updateEnergyAssessment roomy second_call key nothing_valid one_record
  = Reply (Ok (merged second_call R nothing_valid))
          [(key, merged second_call R nothing_valid)] /\
  StableBTreeMap.get key [(key, merged second_call R nothing_valid)]
  = Some (merged second_call R nothing_valid).
Proof.
  destruct (@update_does_not_validate roomy 100 one_record second_call key
              nothing_valid R (one_record_reachable roomy eq_refl) eq_refl)
    as [Htaken _].
  exact (conj (one_record_reachable roomy eq_refl)
           (conj eq_refl
              (conj eq_refl (conj eq_refl (conj eq_refl (Htaken eq_refl)))))).
Defined.

(** Against C9 as stated. An update of the existing record [R] that does not
    succeed: the recommendations of the payload take the merged record over
    the size declared for values, and the reply is the error of the failed
    write. *)
Lemma update_not_always_ok_counterexample :
  reachable declared 100 one_record /\
  StableBTreeMap.get key one_record = Some R /\
  updateEnergyAssessment declared second_call key long_recommendations one_record
  = Reply (Err "Failed to update the energy assessment: ValueTooLarge")
          one_record.
Proof.
  split; [apply one_record_reachable; reflexivity|].
  split; [reflexivity|].
  vm_compute; reflexivity.
Qed.

Lemma delete_then_get_witness :
  reachable roomy 100 one_record /\
  key <> "" /\
  deleteEnergyAssessment key one_record = Reply (Ok R) [] /\
  getEnergyAssessment key [] = Err (not_found key) /\
  deleteEnergyAssessment "nonexistent" one_record
  = Reply (Err (not_found "nonexistent")) one_record.
Proof.
  assert (Hkey : key <> "") by discriminate.
  assert (Hother : "nonexistent" <> "") by discriminate.
  destruct (@delete_then_get roomy 100 one_record key
              (one_record_reachable roomy eq_refl) Hkey) as [Hstored _].
  destruct (Hstored R eq_refl) as (Hdelete & _ & _ & Hget).
  destruct (@delete_then_get roomy 100 one_record "nonexistent"
              (one_record_reachable roomy eq_refl) Hother) as [_ Habsent].
  exact (conj (one_record_reachable roomy eq_refl)
           (conj Hkey (conj Hdelete (conj Hget (Habsent eq_refl))))).
Defined.

(** Against C7 as stated. No record is stored under the empty id, and
    [deleteEnergyAssessment] does not answer with the not-found error: the
    guard on the id answers first, with another error. *)
Lemma delete_empty_id_counterexample :
  StableBTreeMap.get "" one_record = None /\
  deleteEnergyAssessment "" one_record = Reply (Err "ID is required.") one_record /\
  String.eqb "ID is required." (not_found "") = false.
Proof.
  repeat split.
Qed.

(** * Beyond the specification's properties *)

(** ** More on the ordered map *)

Section MoreMapFacts.

Import StableBTreeMap.

Variable V : Type.

Implicit Types (k : string) (v : V) (m : StableBTreeMap.t V).

Lemma above_not_key k m : above k m -> ~ In k (map fst m).
Proof.
  induction 1 as [|[k' v'] rest Hk _ IH]; simpl; [tauto|].
  intros [Heq | Hin]; [|tauto].
  simpl in Hk. apply compare_Lt_neq in Hk. congruence.
Qed.

Lemma ascending_NoDup m : ascending m -> NoDup (map fst m).
Proof.
  induction m as [|[k v] rest IH]; simpl; [constructor|].
  intros [Habove Hasc]. constructor; [now apply above_not_key | auto].
Qed.

Lemma In_get k v m : ascending m -> In (k, v) m -> get k m = Some v.
Proof.
  induction m as [|[k' v'] rest IH]; simpl; [tauto|].
  intros [Habove Hasc] [Heq | Hin].
  - injection Heq as -> ->. now rewrite String.eqb_refl.
  - destruct (String.eqb k k') eqn:E; [|auto].
    apply String.eqb_eq in E. subst k'.
    exfalso. apply (above_not_key Habove).
    change k with (fst (k, v)). now apply in_map.
Qed.

Lemma put_put k v v' m : put k v' (put k v m) = put k v' m.
Proof.
  induction m as [|[k0 v0] rest IH]; simpl.
  - now rewrite compare_refl.
  - destruct (String.compare k k0) eqn:E; simpl.
    + now rewrite compare_refl.
    + now rewrite compare_refl.
    + now rewrite E, IH.
Qed.

Lemma remove_put_fresh k v m : get k m = None -> remove k (put k v m) = m.
Proof.
  induction m as [|[k0 v0] rest IH]; simpl.
  - now rewrite String.eqb_refl.
  - destruct (String.eqb k k0) eqn:Eb; [discriminate|]. intros Hget.
    destruct (String.compare k k0) eqn:E; simpl.
    + apply compare_Eq in E. apply String.eqb_neq in Eb. contradiction.
    + now rewrite String.eqb_refl.
    + now rewrite Eb, IH.
Qed.

Lemma length_put_present k v v' m :
  ascending m -> get k m = Some v -> length (put k v' m) = length m.
Proof.
  induction m as [|[k0 v0] rest IH]; simpl; [discriminate|].
  intros [Habove Hasc]. destruct (String.eqb k k0) eqn:Eb.
  - apply String.eqb_eq in Eb. subst k0. now rewrite compare_refl.
  - intros Hget. destruct (String.compare k k0) eqn:E; simpl.
    + apply compare_Eq in E. apply String.eqb_neq in Eb. contradiction.
    + rewrite (@above_get _ k rest (@above_trans _ k k0 rest E Habove)) in Hget.
      discriminate.
    + now rewrite IH.
Qed.

End MoreMapFacts.

(** ** More on comparisons of [number]s *)

From Stdlib Require Import ZArith.

Lemma is_nan_spec (x : float) :
  PrimFloat.is_nan x = true -> Prim2SF x = S754_nan.
Proof.
  unfold PrimFloat.is_nan. rewrite eqb_spec.
  destruct (Prim2SF x) as [[|]|[|]| |[|] m e]; try reflexivity; cbn;
    try discriminate.
  all: rewrite Z.compare_refl, Pos.compare_refl; discriminate.
Qed.

(** What is not a number is neither below nor above anything. *)
Lemma nan_not_leb (x y : float) :
  PrimFloat.is_nan x = true ->
  PrimFloat.leb x y = false /\ PrimFloat.leb y x = false.
Proof.
  intros H. apply is_nan_spec in H. rewrite !leb_spec, H. split.
  - reflexivity.
  - destruct (Prim2SF y) as [[|]|[|]| |[|] m e]; reflexivity.
Qed.

Lemma SFleb_trans (a b c : spec_float) :
  SFleb a b = true -> SFleb b c = true -> SFleb a c = true.
Proof.
  unfold SFleb.
  destruct a as [[|]|[|]| |[|] ma ea], b as [[|]|[|]| |[|] mb eb],
           c as [[|]|[|]| |[|] mc ec]; cbn; try congruence.
  all: change (Pos.compare_cont Eq) with Pos.compare.
  all: destruct (Z.compare_spec ea eb), (Z.compare_spec eb ec),
         (Z.compare_spec ea ec); try lia; cbn; try congruence.
  all: subst.
  all: destruct (Pos.compare_spec ma mb), (Pos.compare_spec mb mc),
         (Pos.compare_spec ma mc); try lia; cbn; try congruence.
Qed.

Lemma leb_trans (x y z : float) :
  PrimFloat.leb x y = true -> PrimFloat.leb y z = true ->
  PrimFloat.leb x z = true.
Proof.
  rewrite !leb_spec. apply SFleb_trans.
Qed.

(** ** Two facts on [filter] *)

Lemma filter_none {A : Type} (f : A -> bool) (l : list A) :
  (forall a, f a = false) -> filter f l = [].
Proof.
  intros Hf. induction l as [|a l IH]; simpl; [reflexivity|].
  now rewrite Hf.
Qed.

Lemma filter_narrows {A : Type} (f g : A -> bool) (l : list A) :
  (forall a, g a = true -> f a = true) ->
  filter g l = filter g (filter f l).
Proof.
  intros Hgf. induction l as [|a l IH]; simpl; [reflexivity|].
  destruct (g a) eqn:Hg.
  - rewrite (Hgf a Hg). simpl. now rewrite Hg, IH.
  - destruct (f a); simpl; [now rewrite Hg|exact IH].
Qed.

(** ** What a call addresses, and how a record is dated *)

(** The one key an update call can write to: the fresh id for a creation,
    the id it is given otherwise. *)
Definition target (c : Call) (u : Update) : string :=
  match u with
  | CreateEnergyAssessment _ => uuidv4 c
  | UpdateEnergyAssessment id _ => id
  | DeleteEnergyAssessment id => id
  | AddEnergyUsage id _ _ => id
  end.

(** The assessment is dated with its creation, and an update comes after. *)
Definition dated (a : EnergyAssessment) : Prop :=
  assessmentDate a = createdAt a /\
  match updatedAt a with
  | Some t => createdAt a <= t
  | None => True
  end.

Section MoreCanisterFacts.

Variable thrown : Store -> string -> EnergyAssessment -> option string.

Lemma keyed_values (st : Store) :
  Forall keyed st -> map id (StableBTreeMap.values st) = map fst st.
Proof.
  unfold StableBTreeMap.values.
  induction 1 as [|[k a] rest [_ Hid] _ IH]; simpl; [reflexivity|].
  simpl in Hid. now rewrite Hid, IH.
Qed.

(** X1. Listing and lookup agree on every reachable storage: a record is
    listed by [getAllEnergyAssessments] exactly when [getEnergyAssessment]
    on its id returns it, and no two listed records share an id. *)
Theorem listing_agrees_with_lookup (now : nat64) (st : Store)
  (all : list EnergyAssessment) :
  reachable thrown now st ->
  getAllEnergyAssessments st = Ok all ->
  (forall a, In a all <-> getEnergyAssessment (id a) st = Ok a) /\
  NoDup (map id all).
Proof.
  intros Hreach [= <-].
  destruct (reachable_consistent Hreach) as [Hasc Hkeyed]. split.
  - intros a. unfold StableBTreeMap.values. rewrite in_map_iff. split.
    + intros ([k a'] & Hsnd & Hin). simpl in Hsnd. subst a'.
      pose proof Hkeyed as Hall. rewrite Forall_forall in Hall.
      destruct (Hall _ Hin) as [Hk Hid]. simpl in Hk, Hid.
      unfold getEnergyAssessment. rewrite Hid.
      apply truthy_nonempty in Hk. rewrite Hk. simpl.
      now rewrite (@In_get _ k a st Hasc Hin).
    + unfold getEnergyAssessment.
      destruct (negb (truthy (id a))); [discriminate|].
      destruct (StableBTreeMap.get (id a) st) as [a'|] eqn:Hget; [|discriminate].
      intros [= ->]. exists (id a, a). split; [reflexivity|].
      now apply get_In.
  - rewrite (keyed_values Hkeyed). now apply ascending_NoDup.
Qed.

Lemma perform_dated (c : Call) (u : Update) (now : nat64) (st : Store) :
  now <= ic_time c -> stamped now st ->
  Forall (fun e => dated (snd e)) st ->
  Forall (fun e => dated (snd e)) (commit st (perform thrown c u st)).
Proof.
  intros Hle Hstamped Hst.
  destruct u as [payload | k payload | k | k d x]; simpl.
  - unfold createEnergyAssessment, insert.
    destruct (_ || _); [exact Hst|]. simpl.
    destruct (thrown _ _ _); simpl; [exact Hst|].
    apply Forall_put; [|exact Hst]. split; simpl; [reflexivity | exact I].
  - unfold updateEnergyAssessment, insert.
    destruct (negb (truthy k)); [exact Hst|].
    destruct (StableBTreeMap.get k st) as [r|] eqn:Hget; [|exact Hst].
    destruct (thrown _ _ _); simpl; [exact Hst|].
    apply Forall_put; [|exact Hst].
    destruct (get_Forall k Hst Hget) as [Hdate _].
    destruct (get_Forall k Hstamped Hget) as (Hcreated & _).
    simpl in Hdate, Hcreated. split; simpl; [exact Hdate | lia].
  - unfold deleteEnergyAssessment.
    destruct (negb (truthy k)); [exact Hst|].
    destruct (StableBTreeMap.get k st); simpl; [|exact Hst].
    now apply Forall_remove.
  - unfold addEnergyUsage, insert.
    destruct (negb (truthy k)); [exact Hst|].
    destruct (StableBTreeMap.get k st) as [r|] eqn:Hget; [|exact Hst].
    destruct (thrown _ _ _); simpl; [exact Hst|].
    apply Forall_put; [|exact Hst].
    exact (get_Forall k Hst Hget).
Qed.

Lemma reachable_dated (now : nat64) (st : Store) :
  reachable thrown now st -> Forall (fun e => dated (snd e)) st.
Proof.
  induction 1 as [|now st c u Hreach IH Hle _].
  - constructor.
  - apply perform_dated with (now := now);
      [exact Hle | exact (reachable_stamped Hreach) | exact IH].
Qed.

(** X2. On every reachable storage the time stamps of a record are in order:
    assessmentDate is createdAt, whatever updates the record has seen,
    updatedAt, when present, is not before createdAt, and none of them is
    after the time of the last call. *)
Theorem stamps_in_order (now : nat64) (st : Store) (k : string)
  (a : EnergyAssessment) :
  reachable thrown now st ->
  StableBTreeMap.get k st = Some a ->
  assessmentDate a = createdAt a /\
  createdAt a <= now /\
  (forall t, updatedAt a = Some t -> createdAt a <= t /\ t <= now).
Proof.
  intros Hreach Hget.
  destruct (get_Forall k (reachable_dated Hreach) Hget) as [Hdate Hafter].
  destruct (get_Forall k (reachable_stamped Hreach) Hget) as (Hc & _ & Hu).
  simpl in *. split; [exact Hdate|]. split; [exact Hc|].
  intros t Ht. rewrite Ht in Hafter, Hu. split; assumption.
Qed.

(** X3. A call that does not succeed changes nothing: whenever one of the
    four update methods replies with an error, the storage it leaves is the
    storage it found; and the one method an exception can escape from is
    [addEnergyUsage]. *)
Theorem failed_call_changes_nothing (c : Call) (u : Update) (st : Store) :
  (forall e st', perform thrown c u st = Reply (Err e) st' -> st' = st) /\
  (forall error,
     perform thrown c u st = Trap error ->
     exists k d x, u = AddEnergyUsage k d x).
Proof.
  destruct u as [payload | k payload | k | k d x]; simpl.
  - unfold createEnergyAssessment, insert. split.
    + intros e st'. destruct (_ || _); [now intros [= _ <-]|]. simpl.
      destruct (thrown _ _ _); [now intros [= _ <-] | discriminate].
    + intros error. destruct (_ || _); [discriminate|]. simpl.
      destruct (thrown _ _ _); discriminate.
  - unfold updateEnergyAssessment, insert. split.
    + intros e st'. destruct (negb (truthy k)); [now intros [= _ <-]|].
      destruct (StableBTreeMap.get k st); [|now intros [= _ <-]].
      destruct (thrown _ _ _); [now intros [= _ <-] | discriminate].
    + intros error. destruct (negb (truthy k)); [discriminate|].
      destruct (StableBTreeMap.get k st); [|discriminate].
      destruct (thrown _ _ _); discriminate.
  - unfold deleteEnergyAssessment. split.
    + intros e st'. destruct (negb (truthy k)); [now intros [= _ <-]|].
      destruct (StableBTreeMap.get k st); [discriminate | now intros [= _ <-]].
    + intros error. destruct (negb (truthy k)); [discriminate|].
      destruct (StableBTreeMap.get k st); discriminate.
  - split; [|eauto].
    unfold addEnergyUsage, insert.
    intros e st'. destruct (negb (truthy k)); [now intros [= _ <-]|].
    destruct (StableBTreeMap.get k st); [|now intros [= _ <-]].
    destruct (thrown _ _ _); discriminate.
Qed.

Lemma perform_elsewhere (now : nat64) (st : Store) (c : Call)
  (u : Update) (k' : string) :
  reachable thrown now st ->
  k' <> target c u ->
  StableBTreeMap.get k' (commit st (perform thrown c u st))
  = StableBTreeMap.get k' st.
Proof.
  intros Hreach Hother.
  destruct u as [payload | k payload | k | k d x]; simpl in *.
  - unfold createEnergyAssessment, insert.
    destruct (_ || _); [reflexivity|]. simpl.
    destruct (thrown _ _ _); simpl; [reflexivity|].
    apply get_put_other. congruence.
  - unfold updateEnergyAssessment, insert.
    destruct (negb (truthy k)); [reflexivity|].
    destruct (StableBTreeMap.get k st) as [r|] eqn:Hget; [|reflexivity].
    destruct (reachable_get k Hreach Hget) as [_ Hid].
    destruct (thrown _ _ _); simpl; [reflexivity|].
    apply get_put_other. congruence.
  - unfold deleteEnergyAssessment.
    destruct (negb (truthy k)); [reflexivity|].
    destruct (StableBTreeMap.get k st); simpl; [|reflexivity].
    apply get_remove_other. congruence.
  - unfold addEnergyUsage, insert.
    destruct (negb (truthy k)); [reflexivity|].
    destruct (StableBTreeMap.get k st); [|reflexivity].
    destruct (thrown _ _ _); simpl; [reflexivity|].
    apply get_put_other. congruence.
Qed.

(** X4. An update call on a reachable storage writes to one key at most, its
    [target]: every other key holds after the call what it held before. *)
Theorem other_records_untouched (now : nat64) (st : Store) (c : Call)
  (u : Update) (k' : string) :
  reachable thrown now st ->
  k' <> target c u ->
  StableBTreeMap.get k' (commit st (perform thrown c u st))
  = StableBTreeMap.get k' st.
Proof.
  intros Hreach Hother. exact (@perform_elsewhere now st c u k' Hreach Hother).
Qed.

(** X5. What no call can change. Across any update call whose fresh id is
    not yet a key, a record that is stored under [k] before and after keeps
    its id, homeOwner, createdAt and assessmentDate, and its usage history
    of before is a prefix of its usage history of after. *)
Theorem record_identity_is_kept (now : nat64) (st : Store) (c : Call)
  (u : Update) (k : string) (r r' : EnergyAssessment) :
  reachable thrown now st ->
  StableBTreeMap.get (uuidv4 c) st = None ->
  StableBTreeMap.get k st = Some r ->
  StableBTreeMap.get k (commit st (perform thrown c u st)) = Some r' ->
  id r' = id r /\
  homeOwner r' = homeOwner r /\
  createdAt r' = createdAt r /\
  assessmentDate r' = assessmentDate r /\
  exists more, energyUsageHistory r' = (energyUsageHistory r ++ more)%list.
Proof.
  intros Hreach Hfresh Hget Hget'.
  assert (Hsame : r' = r ->
            id r' = id r /\ homeOwner r' = homeOwner r /\
            createdAt r' = createdAt r /\ assessmentDate r' = assessmentDate r /\
            exists more, energyUsageHistory r' = (energyUsageHistory r ++ more)%list).
  { intros ->. repeat split. exists []. now rewrite app_nil_r. }
  destruct (string_dec k (target c u)) as [Htarget | Hother].
  2:{ rewrite (@perform_elsewhere now st c u k Hreach Hother), Hget in Hget'.
      apply Hsame. congruence. }
  destruct (reachable_consistent Hreach) as [Hasc _].
  destruct u as [payload | k0 payload | k0 | k0 d x]; simpl in Htarget;
    subst k; simpl in Hget'.
  - congruence.
  - revert Hget'. unfold updateEnergyAssessment, insert.
    destruct (negb (truthy k0)); [simpl; intros; apply Hsame; congruence|].
    rewrite Hget. destruct (reachable_get k0 Hreach Hget) as [_ Hid].
    destruct (thrown _ _ _); simpl; [intros; apply Hsame; congruence|].
    rewrite Hid, get_put_same. intros [= <-]. simpl.
    repeat split; try exact Hid. exists []. now rewrite app_nil_r.
  - revert Hget'. unfold deleteEnergyAssessment.
    destruct (negb (truthy k0)); [simpl; intros; apply Hsame; congruence|].
    rewrite Hget. simpl.
    rewrite (@get_remove_same _ k0 st Hasc). discriminate.
  - revert Hget'. unfold addEnergyUsage, insert.
    destruct (negb (truthy k0)); [simpl; intros; apply Hsame; congruence|].
    rewrite Hget.
    destruct (thrown _ _ _); simpl; [intros; apply Hsame; congruence|].
    rewrite get_put_same. intros [= <-]. simpl.
    repeat split. eauto.
Qed.

(** X6. [insert] replaces. When [uuidv4()] returns an id that is already a
    key, a creation the storage takes puts the new record in the place of
    the stored one: the storage holds as many records as before, and the
    record under that id has the empty history of a new record. *)
Theorem create_replaces_on_collision (now : nat64) (st : Store) (c : Call)
  (payload : EnergyAssessmentPayload) (r : EnergyAssessment) :
  reachable thrown now st ->
  valid_payload payload ->
  StableBTreeMap.get (uuidv4 c) st = Some r ->
  thrown st (uuidv4 c) (assessed c payload) = None ->
  exists st',
    createEnergyAssessment thrown c payload st
    = Reply (Ok (assessed c payload)) st' /\
    StableBTreeMap.get (uuidv4 c) st' = Some (assessed c payload) /\
    length st' = length st /\
    getEnergyUsageHistory (uuidv4 c) st' = Ok [].
Proof.
  intros Hreach Hvalid Hget Htaken.
  destruct (reachable_consistent Hreach) as [Hasc _].
  destruct (reachable_get _ Hreach Hget) as [Hk _].
  exists (StableBTreeMap.put (uuidv4 c) (assessed c payload) st).
  rewrite (create_replies thrown c st Hvalid), Htaken.
  unfold getEnergyUsageHistory. rewrite Hk, get_put_same. simpl.
  repeat split.
  apply length_put_present with (v := r); assumption.
Qed.

(** X7. Creation undone. When the fresh id is not yet a key,
    [deleteEnergyAssessment] on the id of the record that
    [createEnergyAssessment] returned gives that record back and leaves the
    storage exactly as it was before the creation. *)
Theorem create_then_delete (c : Call) (payload : EnergyAssessmentPayload)
  (st st' : Store) (a : EnergyAssessment) :
  uuidv4 c <> "" ->
  StableBTreeMap.get (uuidv4 c) st = None ->
  createEnergyAssessment thrown c payload st = Reply (Ok a) st' ->
  deleteEnergyAssessment (id a) st' = Reply (Ok a) st.
Proof.
  intros Huuid Hfresh Hcreate.
  destruct (create_ok_inv _ _ _ _ Hcreate) as [-> ->].
  unfold deleteEnergyAssessment. simpl.
  apply truthy_nonempty in Huuid. rewrite Huuid. simpl.
  rewrite get_put_same. now rewrite remove_put_fresh.
Qed.

Lemma update_unfolds (c : Call) (k : string) (payload : EnergyAssessmentPayload)
  (st : Store) (r : EnergyAssessment) :
  truthy k = true ->
  id r = k ->
  StableBTreeMap.get k st = Some r ->
  updateEnergyAssessment thrown c k payload st
  = match thrown st k (merged c r payload) with
    | None =>
        Reply (Ok (merged c r payload))
              (StableBTreeMap.put k (merged c r payload) st)
    | Some error =>
        Reply (Err ("Failed to update the energy assessment: " ++ error)) st
    end.
Proof.
  intros Hk Hid Hget.
  unfold updateEnergyAssessment, insert. rewrite Hk, Hget. simpl.
  rewrite Hid. destruct (thrown _ _ _); reflexivity.
Qed.

(** X8. The last update wins. Two updates of one record, both taken by the
    storage, leave what the second alone would have left: the record of
    before merged with the second payload and stamped with the second time,
    stored in the place of the first. *)
Theorem last_update_wins (now : nat64) (st st1 : Store) (c1 c2 : Call)
  (k : string) (p1 p2 : EnergyAssessmentPayload) (r a1 : EnergyAssessment) :
  reachable thrown now st ->
  StableBTreeMap.get k st = Some r ->
  updateEnergyAssessment thrown c1 k p1 st = Reply (Ok a1) st1 ->
  thrown st1 k (merged c2 r p2) = None ->
  updateEnergyAssessment thrown c2 k p2 st1
  = Reply (Ok (merged c2 r p2)) (StableBTreeMap.put k (merged c2 r p2) st).
Proof.
  intros Hreach Hget Hfirst Htaken.
  destruct (reachable_get k Hreach Hget) as [Hk Hid].
  rewrite (@update_unfolds c1 k p1 st r Hk Hid Hget) in Hfirst.
  destruct (thrown st k (merged c1 r p1)); [discriminate|].
  injection Hfirst as <- <-.
  rewrite (@update_unfolds c2 k p2 _ (merged c1 r p1) Hk Hid
             (get_put_same k _ st)).
  change (merged c2 (merged c1 r p1) p2) with (merged c2 r p2).
  now rewrite Htaken, put_put.
Qed.

(** X9. Each successful [addEnergyUsage] raises what
    [calculateTotalConsumption] returns by the consumption of the reading,
    in binary64: the new total is the total of before plus that
    consumption. *)
Theorem add_raises_total (k : string) (d : nat64) (x total : float)
  (st st' : Store) (a : EnergyAssessment) :
  calculateTotalConsumption k st = Ok total ->
  addEnergyUsage thrown k d x st = Reply (Ok a) st' ->
  calculateTotalConsumption k st' = Ok (PrimFloat.add total x).
Proof.
  intros Htotal Hadd.
  destruct (add_ok_inv _ _ _ _ _ Hadd) as (Hk & r & Hget & -> & ->).
  revert Htotal. unfold calculateTotalConsumption.
  rewrite Hk, Hget, get_put_same. simpl. intros [= <-].
  now rewrite reduce_snoc.
Qed.

(** X10. An update of a record leaves its readings alone: after a successful
    [updateEnergyAssessment], [getEnergyUsageHistory] and
    [calculateTotalConsumption] on the id return what they returned
    before. *)
Theorem update_keeps_usage (now : nat64) (st st' : Store) (c : Call)
  (k : string) (payload : EnergyAssessmentPayload) (a : EnergyAssessment) :
  reachable thrown now st ->
  updateEnergyAssessment thrown c k payload st = Reply (Ok a) st' ->
  getEnergyUsageHistory k st' = getEnergyUsageHistory k st /\
  calculateTotalConsumption k st' = calculateTotalConsumption k st.
Proof.
  intros Hreach Hupdate.
  assert (Hfound : exists r, StableBTreeMap.get k st = Some r).
  { revert Hupdate. unfold updateEnergyAssessment.
    destruct (negb (truthy k)); [discriminate|].
    destruct (StableBTreeMap.get k st); [eauto | discriminate]. }
  destruct Hfound as [r Hget].
  destruct (reachable_get k Hreach Hget) as [Hk Hid].
  rewrite (@update_unfolds c k payload st r Hk Hid Hget) in Hupdate.
  destruct (thrown st k (merged c r payload)); [discriminate|].
  injection Hupdate as <- <-.
  unfold getEnergyUsageHistory, calculateTotalConsumption.
  rewrite Hk, Hget, get_put_same. simpl. split; reflexivity.
Qed.

(** X11. A write the storage refuses is not reported by [addEnergyUsage]:
    on an existing record the exception of [insert] escapes the method, the
    call traps with it instead of replying, and the storage and the history
    of the record stay as they were. *)
Theorem add_traps_on_refused_write (now : nat64) (st : Store) (k : string)
  (d : nat64) (x : float) (r : EnergyAssessment) (error : string) :
  reachable thrown now st ->
  StableBTreeMap.get k st = Some r ->
  thrown st k (pushed r d x) = Some error ->
  addEnergyUsage thrown k d x st = Trap error /\
  getEnergyUsageHistory k (commit st (addEnergyUsage thrown k d x st))
  = Ok (energyUsageHistory r).
Proof.
  intros Hreach Hget Hrefused.
  destruct (reachable_get k Hreach Hget) as [Hk _].
  assert (Htrap : addEnergyUsage thrown k d x st = Trap error).
  { unfold addEnergyUsage, insert. now rewrite Hk, Hget, Hrefused. }
  rewrite Htrap. split; [reflexivity|]. simpl.
  unfold getEnergyUsageHistory. now rewrite Hk, Hget.
Qed.

(** X12. The guard of [createEnergyAssessment] turns down what is [<= 0]
    and nothing else: a rating or savings that is not a number passes it as
    a positive one does, and the record is created with it. *)
Theorem create_lets_nan_through (c : Call) (payload : EnergyAssessmentPayload)
  (st : Store) :
  Payload.address payload <> "" ->
  PrimFloat.ltb 0%float (Payload.efficiencyRating payload) = true
  \/ PrimFloat.is_nan (Payload.efficiencyRating payload) = true ->
  PrimFloat.ltb 0%float (Payload.costSavings payload) = true
  \/ PrimFloat.is_nan (Payload.costSavings payload) = true ->
  thrown st (uuidv4 c) (assessed c payload) = None ->
  createEnergyAssessment thrown c payload st
  = Reply (Ok (assessed c payload))
          (StableBTreeMap.put (uuidv4 c) (assessed c payload) st).
Proof.
  intros Haddress Hrating Hsavings Htaken.
  unfold createEnergyAssessment, insert.
  apply truthy_nonempty in Haddress. rewrite Haddress. simpl.
  assert (Hr : PrimFloat.leb (Payload.efficiencyRating payload) 0%float = false).
  { destruct Hrating as [H | H];
      [now apply positive_not_leb_zero | exact (proj1 (nan_not_leb _ 0%float H))]. }
  assert (Hs : PrimFloat.leb (Payload.costSavings payload) 0%float = false).
  { destruct Hsavings as [H | H];
      [now apply positive_not_leb_zero | exact (proj1 (nan_not_leb _ 0%float H))]. }
  rewrite Hr, Hs. simpl. now rewrite Htaken.
Qed.

(** X16. A record that [createEnergyAssessment] returned is among the
    records [getHighEfficiencyAssessments] returns for a threshold above 0
    exactly when its rating is at least the threshold. *)
Theorem created_is_listed_by_rating (c : Call) (payload : EnergyAssessmentPayload)
  (st st' : Store) (a : EnergyAssessment) (threshold : float) :
  createEnergyAssessment thrown c payload st = Reply (Ok a) st' ->
  PrimFloat.ltb 0%float threshold = true ->
  exists listed,
    getHighEfficiencyAssessments threshold st' = Ok listed /\
    (In a listed <-> geb (Payload.efficiencyRating payload) threshold = true).
Proof.
  intros Hcreate Hpositive.
  destruct (create_ok_inv _ _ _ _ Hcreate) as [-> ->].
  unfold getHighEfficiencyAssessments.
  rewrite (positive_not_leb_zero Hpositive).
  eexists. split; [reflexivity|].
  rewrite filter_In. simpl. split; [tauto|].
  intros Hrating. split; [|exact Hrating].
  unfold StableBTreeMap.values.
  change (assessed c payload) with (snd (uuidv4 c, assessed c payload)) at 1.
  apply in_map, get_In, get_put_same.
Qed.

End MoreCanisterFacts.

(** ** The queries *)

(** X13. [getHighEfficiencyAssessments] and what is not a number: a
    threshold that is not a number is no error and selects nothing, and a
    record whose rating is not a number is selected by no threshold. *)
Theorem nan_is_never_efficient (threshold : float) (st : Store) :
  (PrimFloat.is_nan threshold = true ->
   getHighEfficiencyAssessments threshold st = Ok []) /\
  (forall listed a,
     getHighEfficiencyAssessments threshold st = Ok listed ->
     In a listed ->
     PrimFloat.is_nan (efficiencyRating a) = false).
Proof.
  unfold getHighEfficiencyAssessments. split.
  - intros Hnan. rewrite (proj1 (nan_not_leb threshold 0%float Hnan)).
    f_equal. apply filter_none. intros a. unfold geb.
    exact (proj1 (nan_not_leb threshold (efficiencyRating a) Hnan)).
  - intros listed a.
    destruct (PrimFloat.leb threshold 0%float); [discriminate|].
    intros [= <-]. rewrite filter_In. intros [_ Hrating].
    destruct (PrimFloat.is_nan (efficiencyRating a)) eqn:Hnan; [|reflexivity].
    unfold geb in Hrating.
    rewrite (proj2 (nan_not_leb (efficiencyRating a) threshold Hnan)) in Hrating.
    discriminate.
Qed.

(** X14. Raising the threshold narrows the selection: for thresholds
    [low <= high] that [getHighEfficiencyAssessments] accepts, the records
    returned for [high] are those returned for [low] whose rating is at
    least [high], in the same order. *)
Theorem higher_threshold_selects_less (low high : float) (st : Store)
  (at_low at_high : list EnergyAssessment) :
  PrimFloat.leb low high = true ->
  getHighEfficiencyAssessments low st = Ok at_low ->
  getHighEfficiencyAssessments high st = Ok at_high ->
  at_high = filter (fun a => geb (efficiencyRating a) high) at_low /\
  incl at_high at_low.
Proof.
  intros Hle. unfold getHighEfficiencyAssessments.
  destruct (PrimFloat.leb low 0%float); [discriminate|].
  destruct (PrimFloat.leb high 0%float); [discriminate|].
  intros [= <-] [= <-].
  assert (Heq : filter (fun a => geb (efficiencyRating a) high)
                  (StableBTreeMap.values st)
                = filter (fun a => geb (efficiencyRating a) high)
                    (filter (fun a => geb (efficiencyRating a) low)
                       (StableBTreeMap.values st))).
  { apply filter_narrows. intros a. unfold geb.
    now apply leb_trans. }
  split; [exact Heq|].
  rewrite Heq. intros a. rewrite filter_In. tauto.
Qed.

(** X15. The methods that take an id agree on which ids they serve. When
    [getEnergyAssessment] returns a record, the two other queries answer
    from that record; when it returns an error, they return the same error,
    and the three updates that take an id reply with one common error and
    leave the storage as it is. *)
Theorem methods_agree_on_ids
  (thrown : Store -> string -> EnergyAssessment -> option string)
  (k : string) (st : Store) :
  (forall a,
     getEnergyAssessment k st = Ok a ->
     getEnergyUsageHistory k st = Ok (energyUsageHistory a) /\
     calculateTotalConsumption k st
     = Ok (consumption_sum (energyUsageHistory a))) /\
  (forall e,
     getEnergyAssessment k st = Err e ->
     getEnergyUsageHistory k st = Err e /\
     calculateTotalConsumption k st = Err e /\
     exists e',
       deleteEnergyAssessment k st = Reply (Err e') st /\
       (forall c payload,
          updateEnergyAssessment thrown c k payload st = Reply (Err e') st) /\
       (forall d x, addEnergyUsage thrown k d x st = Reply (Err e') st)).
Proof.
  unfold getEnergyAssessment, getEnergyUsageHistory, calculateTotalConsumption,
    deleteEnergyAssessment, updateEnergyAssessment, addEnergyUsage.
  destruct (negb (truthy k)).
  - split; [discriminate|]. intros e [= <-]. eauto 6.
  - destruct (StableBTreeMap.get k st) as [r|].
    + split; [|discriminate]. intros a [= <-].
      now rewrite reduce_consumption_sum.
    + split; [discriminate|]. intros e [= <-]. eauto 6.
Qed.

(** ** The earlier variant of the methods *)

(** The source file carries an earlier text of the canister after the
    current one: the same records and storage, no validation of payloads or
    ids, and no [try] around any [insert]. *)
Module Earlier.

Section Canister.

Variable thrown : Store -> string -> EnergyAssessment -> option string.

(** [{id: uuidv4(), createdAt: ic.time(), updatedAt: Opt.None,
      homeOwner: ic.caller(), assessmentDate: ic.time(),
      energyUsageHistory: [], ...payload}] *)
Definition assessed (c : Call) (payload : EnergyAssessmentPayload)
  : EnergyAssessment :=
  {| id := uuidv4 c;
     createdAt := ic_time c;
     updatedAt := None;
     homeOwner := ic_caller c;
     assessmentDate := ic_time c;
     energyUsageHistory := [];
     address := Payload.address payload;
     efficiencyRating := Payload.efficiencyRating payload;
     recommendations := Payload.recommendations payload;
     costSavings := Payload.costSavings payload |}.

Definition createEnergyAssessment (c : Call) (payload : EnergyAssessmentPayload)
  (st : Store) : Outcome EnergyAssessment :=
  let assessment := assessed c payload in
  match insert thrown (id assessment) assessment st with
  | Ok st' => Reply (Ok assessment) st'
  | Err error => Trap error
  end.

Definition getEnergyAssessment (id : string) (st : Store)
  : Result EnergyAssessment string :=
  match StableBTreeMap.get id st with
  | Some assessment => Ok assessment
  | None => Err (not_found id)
  end.

Definition updateEnergyAssessment (c : Call) (id' : string)
  (payload : EnergyAssessmentPayload) (st : Store) : Outcome EnergyAssessment :=
  match StableBTreeMap.get id' st with
  | Some existingAssessment =>
      let updatedAssessment := merged c existingAssessment payload in
      match insert thrown (id updatedAssessment) updatedAssessment st with
      | Ok st' => Reply (Ok updatedAssessment) st'
      | Err error => Trap error
      end
  | None => Reply (Err (not_found id')) st
  end.

Definition deleteEnergyAssessment (id : string) (st : Store)
  : Outcome EnergyAssessment :=
  match StableBTreeMap.get id st with
  | Some existingAssessment =>
      Reply (Ok existingAssessment) (StableBTreeMap.remove id st)
  | None => Reply (Err (not_found id)) st
  end.

Definition addEnergyUsage (id : string) (date : nat64) (consumption : float)
  (st : Store) : Outcome EnergyAssessment :=
  match StableBTreeMap.get id st with
  | Some assessment =>
      let assessment' := pushed assessment date consumption in
      match insert thrown id assessment' st with
      | Ok st' => Reply (Ok assessment') st'
      | Err error => Trap error
      end
  | None => Reply (Err (not_found id)) st
  end.

Definition getEnergyUsageHistory (id : string) (st : Store)
  : Result (list EnergyUsageData) string :=
  match StableBTreeMap.get id st with
  | Some asses => Ok (energyUsageHistory asses)
  | None => Err (not_found id)
  end.

End Canister.

End Earlier.

Section EarlierFacts.

Variable thrown : Store -> string -> EnergyAssessment -> option string.

Lemma earlier_assessed (c : Call) (payload : EnergyAssessmentPayload) :
  Earlier.assessed c payload = assessed c payload.
Proof.
  unfold Earlier.assessed, assessed. now rewrite or_else_empty.
Qed.

(** X17. The current methods answer as the earlier ones did wherever they
    answer with a record: a creation or an update that succeeds now
    succeeded before, with the same record and the same storage after it,
    and on an id that is not empty the queries, the deletion and the
    addition of a reading are the earlier ones unchanged. *)
Theorem current_methods_refine_earlier (c : Call) (k : string)
  (payload : EnergyAssessmentPayload) (st : Store) :
  (forall a st',
     createEnergyAssessment thrown c payload st = Reply (Ok a) st' ->
     Earlier.createEnergyAssessment thrown c payload st = Reply (Ok a) st') /\
  (forall a st',
     updateEnergyAssessment thrown c k payload st = Reply (Ok a) st' ->
     Earlier.updateEnergyAssessment thrown c k payload st = Reply (Ok a) st') /\
  (k <> "" ->
   getEnergyAssessment k st = Earlier.getEnergyAssessment k st /\
   getEnergyUsageHistory k st = Earlier.getEnergyUsageHistory k st /\
   deleteEnergyAssessment k st = Earlier.deleteEnergyAssessment k st /\
   forall d x,
     addEnergyUsage thrown k d x st = Earlier.addEnergyUsage thrown k d x st).
Proof.
  split; [|split].
  - intros a st'.
    unfold createEnergyAssessment, Earlier.createEnergyAssessment.
    rewrite earlier_assessed.
    destruct (_ || _); [discriminate|]. simpl.
    destruct (insert thrown _ _ st); [tauto | discriminate].
  - intros a st'.
    unfold updateEnergyAssessment, Earlier.updateEnergyAssessment.
    destruct (negb (truthy k)); [discriminate|].
    destruct (StableBTreeMap.get k st); [|tauto].
    destruct (insert thrown _ _ st); [tauto | discriminate].
  - intros Hk. apply truthy_nonempty in Hk.
    unfold getEnergyAssessment, Earlier.getEnergyAssessment,
      getEnergyUsageHistory, Earlier.getEnergyUsageHistory,
      deleteEnergyAssessment, Earlier.deleteEnergyAssessment,
      addEnergyUsage, Earlier.addEnergyUsage.
    rewrite Hk. simpl. repeat split.
Qed.

(** X18. What the validation changed. The earlier creation took every
    payload the storage took, an empty address and ratings and savings that
    are not positive among them. On every such payload the current creation
    leaves the storage as it is where the earlier one stores a record; and
    when the fresh id is not yet a key, these are exactly the payloads on
    which the current creation leaves the storage as it is. *)
Theorem earlier_creation_took_everything (c : Call)
  (payload : EnergyAssessmentPayload) (st : Store) :
  thrown st (uuidv4 c) (assessed c payload) = None ->
  Earlier.createEnergyAssessment thrown c payload st
  = Reply (Ok (assessed c payload))
          (StableBTreeMap.put (uuidv4 c) (assessed c payload) st) /\
  (Payload.address payload = ""
   \/ PrimFloat.leb (Payload.efficiencyRating payload) 0%float = true
   \/ PrimFloat.leb (Payload.costSavings payload) 0%float = true ->
   commit st (createEnergyAssessment thrown c payload st) = st /\
   StableBTreeMap.get (uuidv4 c)
     (commit st (Earlier.createEnergyAssessment thrown c payload st))
   = Some (assessed c payload)) /\
  (StableBTreeMap.get (uuidv4 c) st = None ->
   (commit st (createEnergyAssessment thrown c payload st) = st <->
    Payload.address payload = ""
    \/ PrimFloat.leb (Payload.efficiencyRating payload) 0%float = true
    \/ PrimFloat.leb (Payload.costSavings payload) 0%float = true)).
Proof.
  intros Htaken.
  assert (Hearlier : Earlier.createEnergyAssessment thrown c payload st
                     = Reply (Ok (assessed c payload))
                         (StableBTreeMap.put (uuidv4 c) (assessed c payload) st)).
  { unfold Earlier.createEnergyAssessment, insert.
    rewrite earlier_assessed. simpl. now rewrite Htaken. }
  assert (Hturned_down :
            Payload.address payload = ""
            \/ PrimFloat.leb (Payload.efficiencyRating payload) 0%float = true
            \/ PrimFloat.leb (Payload.costSavings payload) 0%float = true ->
            commit st (createEnergyAssessment thrown c payload st) = st).
  { intros Hinvalid. unfold createEnergyAssessment.
    assert (Hguard : negb (truthy (Payload.address payload))
                     || PrimFloat.leb (Payload.efficiencyRating payload) 0%float
                     || PrimFloat.leb (Payload.costSavings payload) 0%float
                     = true).
    { destruct Hinvalid as [-> | [-> | ->]]; simpl.
      - reflexivity.
      - now rewrite orb_true_r.
      - now rewrite orb_true_r. }
    now rewrite Hguard. }
  split; [exact Hearlier|]. split.
  - intros Hinvalid. rewrite Hearlier. simpl.
    split; [now apply Hturned_down | apply get_put_same].
  - intros Hfresh. split; [|exact Hturned_down].
    unfold createEnergyAssessment, insert.
    destruct (Payload.address payload) as [|ch rest] eqn:Haddress; [now left|].
    destruct (PrimFloat.leb (Payload.efficiencyRating payload) 0%float);
      [now right; left|].
    destruct (PrimFloat.leb (Payload.costSavings payload) 0%float);
      [now right; right|].
    simpl. rewrite Htaken. simpl. intros Hsame.
    pose proof (get_put_same (uuidv4 c) (assessed c payload) st) as Hstored.
    rewrite Hsame, Hfresh in Hstored. discriminate.
Qed.

End EarlierFacts.

(** ** The random source installed for [uuid] *)

(** [Math.floor] of a number, as the integer it is; nothing for a number
    that is infinite or not a number. *)
Definition floor (x : float) : option Z :=
  match Prim2SF x with
  | S754_zero _ => Some 0%Z
  | S754_finite s m e =>
      let n := if s then Z.neg m else Z.pos m in
      Some (if (0 <=? e)%Z then n * 2 ^ e else n / 2 ^ (- e))%Z
  | S754_infinity _ => None
  | S754_nan => None
  end.

(** What an element of a [Uint8Array] holds after [array[i] = Math.floor(y)]:
    the integer modulo 256, and 0 when there is none. *)
Definition stored_byte (y : float) : Z :=
  match floor y with
  | Some n => (n mod 256)%Z
  | None => 0%Z
  end.

(** [array[i] = v] on a typed array: nothing happens out of range. *)
Fixpoint assign (i : nat) (v : Z) (array : list Z) : list Z :=
  match array, i with
  | [], _ => []
  | _ :: rest, O => v :: rest
  | b :: rest, S i' => b :: assign i' v rest
  end.

Section Polyfill.

(** [Math_random i] is the number [Math.random()] yields in the iteration
    for index [i]. *)
Variable Math_random : nat -> float.

(** The [for] loop from index [i] on; [fuel] bounds its iterations. *)
Fixpoint fill (fuel i : nat) (array : list Z) : list Z :=
  match fuel with
  | O => array
  | S fuel' =>
      if (i <? List.length array)%nat
      then fill fuel' (S i)
             (assign i (stored_byte (PrimFloat.mul (Math_random i) 256%float))
                array)
      else array
  end.

(** [new Uint8Array(32)], filled and returned. *)
Definition getRandomValues : list Z := fill 32 0 (repeat 0%Z 32).

Lemma length_assign (i : nat) (v : Z) (array : list Z) :
  List.length (assign i v array) = List.length array.
Proof.
  revert i. induction array as [|b rest IH]; intros [|i]; simpl; auto.
Qed.

Lemma firstn_assign (i : nat) (v : Z) (array : list Z) :
  (i < List.length array)%nat ->
  firstn (S i) (assign i v array) = (firstn i array ++ [v])%list.
Proof.
  revert i. induction array as [|b rest IH]; intros [|i]; simpl; try lia.
  - intros _. reflexivity.
  - intros Hlt. f_equal. apply IH. lia.
Qed.

Lemma fill_spec (fuel : nat) :
  forall (i : nat) (array : list Z),
    (i <= List.length array)%nat ->
    (List.length array - i <= fuel)%nat ->
    fill fuel i array
    = (firstn i array
       ++ map (fun j => stored_byte (PrimFloat.mul (Math_random j) 256%float))
            (seq i (List.length array - i)))%list.
Proof.
  induction fuel as [|fuel IH]; intros i array Hi Hfuel; simpl.
  - replace (List.length array - i)%nat with 0%nat by lia. simpl.
    rewrite app_nil_r, firstn_all2; [reflexivity | lia].
  - destruct (Nat.ltb_spec i (List.length array)) as [Hlt | Hge].
    + rewrite IH by (rewrite length_assign; lia).
      rewrite length_assign, firstn_assign by exact Hlt.
      replace (List.length array - i)%nat
        with (S (List.length array - S i)) by lia.
      simpl. now rewrite <- app_assoc.
    + replace (List.length array - i)%nat with 0%nat by lia. simpl.
      rewrite app_nil_r, firstn_all2; [reflexivity | lia].
Qed.

(** X19. Whatever [Math.random] yields, the loop ends after 32 iterations
    and [getRandomValues] returns 32 bytes, the one at index [i] being what
    the array stores of [Math.floor(Math.random() * 256)] in iteration
    [i]. *)
Theorem random_values_are_32_bytes :
  getRandomValues
  = map (fun i => stored_byte (PrimFloat.mul (Math_random i) 256%float))
      (seq 0 32) /\
  List.length getRandomValues = 32%nat /\
  Forall (fun b => (0 <= b < 256)%Z) getRandomValues /\
  (forall fuel, (32 <= fuel)%nat -> fill fuel 0 (repeat 0%Z 32) = getRandomValues).
Proof.
  assert (Hfill : forall fuel, (32 <= fuel)%nat ->
            fill fuel 0 (repeat 0%Z 32)
            = map (fun i => stored_byte (PrimFloat.mul (Math_random i) 256%float))
                (seq 0 32)).
  { intros fuel Hfuel. rewrite fill_spec; [reflexivity | simpl; lia | simpl; lia]. }
  unfold getRandomValues. rewrite (Hfill 32%nat (le_n 32)).
  split; [reflexivity|]. split; [now rewrite length_map, length_seq|].
  split; [|exact Hfill].
  apply Forall_map, Forall_forall. intros i _. unfold stored_byte.
  destruct (floor _); [apply Z.mod_pos_bound; lia | lia].
Qed.

End Polyfill.

(** ** The further properties at work *)

Definition third_call : Call :=
  {| ic_time := 300;
     ic_caller := "aaaaa-aa";
     uuidv4 := "6ec0bd7f-11c0-43da-975e-2a8ad9ebae0b" |}.

(** A payload whose numbers are not numbers. *)
Definition not_numbers : EnergyAssessmentPayload :=
  {| Payload.address := "3 Main St";
     Payload.efficiencyRating := nan;
     Payload.recommendations := "";
     Payload.costSavings := nan |}.

(** An address of 1000 bytes: a record with it and one reading is within
    1024 bytes by the count of [sized], a record with two readings is not. *)
Definition long_street : EnergyAssessmentPayload :=
  {| Payload.address := String.concat "" (List.repeat "a" 1000);
     Payload.efficiencyRating := 5%float;
     Payload.recommendations := "";
     Payload.costSavings := 200%float |}.

(** A storage that counts, of the 1024 bytes declared for a value, the
    bytes of the two texts and the sixteen bytes of each reading. *)
Definition sized : Store -> string -> EnergyAssessment -> option string :=
  fun _ _ v =>
    if 1024 <? N.of_nat (String.length (address v)
                         + String.length (recommendations v)
                         + 16 * List.length (energyUsageHistory v))
    then Some "ValueTooLarge"
    else None.

Definition nearly_full : Store :=
  [(key, pushed (assessed first_call long_street) 100 30%float)].

Lemma nearly_full_reachable : reachable sized 100 nearly_full.
Proof.
  apply (@reachable_called sized 100
           [(key, assessed first_call long_street)] first_call
           (AddEnergyUsage key 100 30%float)); [| reflexivity | discriminate].
  apply (@reachable_called sized 0 [] first_call
           (CreateEnergyAssessment long_street));
    [constructor | discriminate | discriminate].
Qed.

Lemma listing_agrees_with_lookup_witness :
  reachable roomy 200 two_records /\
  getAllEnergyAssessments two_records
  = Ok [assessed second_call main_street; merged second_call R second_street] /\
  (In (merged second_call R second_street)
      [assessed second_call main_street; merged second_call R second_street]
   <-> getEnergyAssessment key two_records
       = Ok (merged second_call R second_street)) /\
  NoDup (map id [assessed second_call main_street;
                 merged second_call R second_street]).
Proof.
  destruct (@listing_agrees_with_lookup roomy 200 two_records _
              two_records_reachable eq_refl) as [Hlisted Hdistinct].
  exact (conj two_records_reachable
           (conj eq_refl
              (conj (Hlisted (merged second_call R second_street)) Hdistinct))).
Defined.

Lemma stamps_in_order_witness :
  reachable roomy 200 two_records /\
  StableBTreeMap.get key two_records = Some (merged second_call R second_street) /\
  assessmentDate (merged second_call R second_street) = 100 /\
  createdAt (merged second_call R second_street) <= 200 /\
  100 <= 200 /\ 200 <= 200.
Proof.
  destruct (@stamps_in_order roomy 200 two_records key
              (merged second_call R second_street)
              two_records_reachable eq_refl) as (Hdate & Hcreated & Hupdated).
  exact (conj two_records_reachable
           (conj eq_refl (conj Hdate (conj Hcreated (Hupdated 200 eq_refl))))).
Defined.

Lemma other_records_untouched_witness :
  reachable roomy 200 two_records /\
  uuidv4 second_call <> target third_call (DeleteEnergyAssessment key) /\
  StableBTreeMap.get (uuidv4 second_call)
    (commit two_records
       (perform roomy third_call (DeleteEnergyAssessment key) two_records))
  = Some (assessed second_call main_street).
Proof.
  assert (Hother : uuidv4 second_call
                   <> target third_call (DeleteEnergyAssessment key))
    by discriminate.
  exact (conj two_records_reachable
           (conj Hother
              (@other_records_untouched roomy 200 two_records third_call
                 (DeleteEnergyAssessment key) (uuidv4 second_call)
                 two_records_reachable Hother))).
Defined.

Lemma record_identity_is_kept_witness :
  reachable roomy 100 metered /\
  StableBTreeMap.get (uuidv4 second_call) metered = None /\
  StableBTreeMap.get key metered
  = Some (pushed (pushed R 100 30%float) 200 10%float) /\
  (exists r',
     StableBTreeMap.get key
       (commit metered
          (perform roomy second_call (AddEnergyUsage key 300 5%float) metered))
     = Some r' /\
     id r' = key /\
     homeOwner r' = "2vxsx-fae" /\
     createdAt r' = 100 /\
     exists more,
       energyUsageHistory r'
       = ([ {| date := 100; consumption := 30%float |};
            {| date := 200; consumption := 10%float |} ] ++ more)%list).
Proof.
  refine (conj metered_reachable (conj eq_refl (conj eq_refl _))).
  eexists. split; [reflexivity|].
  destruct (@record_identity_is_kept roomy 100 metered second_call
              (AddEnergyUsage key 300 5%float) key _ _
              metered_reachable eq_refl eq_refl eq_refl)
    as (Hid & Howner & Hcreated & _ & Hhistory).
  exact (conj Hid (conj Howner (conj Hcreated Hhistory))).
Defined.

Lemma create_replaces_on_collision_witness :
  reachable roomy 100 metered /\
  valid_payload main_street /\
  StableBTreeMap.get (uuidv4 first_call) metered
  = Some (pushed (pushed R 100 30%float) 200 10%float) /\
  roomy metered (uuidv4 first_call) (assessed first_call main_street) = None /\
  (exists st',
     createEnergyAssessment roomy first_call main_street metered
     = Reply (Ok R) st' /\
     StableBTreeMap.get (uuidv4 first_call) st' = Some R /\
     List.length st' = List.length metered /\
     getEnergyUsageHistory (uuidv4 first_call) st' = Ok []).
Proof.
  exact (conj metered_reachable
           (conj main_street_valid
              (conj eq_refl
                 (conj eq_refl
                    (@create_replaces_on_collision roomy 100 metered first_call
                       main_street _ metered_reachable main_street_valid
                       eq_refl eq_refl))))).
Defined.

Lemma create_then_delete_witness :
  uuidv4 first_call <> "" /\
  StableBTreeMap.get (uuidv4 first_call) (StableBTreeMap.empty : Store) = None /\
  createEnergyAssessment roomy first_call main_street [] = Reply (Ok R) one_record /\
  deleteEnergyAssessment (id R) one_record = Reply (Ok R) [].
Proof.
  assert (Huuid : uuidv4 first_call <> "") by discriminate.
  exact (conj Huuid
           (conj eq_refl
              (conj eq_refl
                 (@create_then_delete roomy first_call main_street []
                    one_record R Huuid eq_refl eq_refl)))).
Defined.

Lemma last_update_wins_witness :
  reachable roomy 100 one_record /\
  StableBTreeMap.get key one_record = Some R /\
  updateEnergyAssessment roomy second_call key nothing_valid one_record
  = Reply (Ok (merged second_call R nothing_valid))
          [(key, merged second_call R nothing_valid)] /\
  roomy [(key, merged second_call R nothing_valid)] key
    (merged third_call R second_street) = None /\
  updateEnergyAssessment roomy third_call key second_street
    [(key, merged second_call R nothing_valid)]
  = Reply (Ok (merged third_call R second_street))
          [(key, merged third_call R second_street)].
Proof.
  exact (conj (one_record_reachable roomy eq_refl)
           (conj eq_refl
              (conj eq_refl
                 (conj eq_refl
                    (@last_update_wins roomy 100 one_record _ second_call
                       third_call key nothing_valid second_street R _
                       (one_record_reachable roomy eq_refl) eq_refl eq_refl
                       eq_refl))))).
Defined.

Lemma add_raises_total_witness :
  calculateTotalConsumption key [(key, pushed R 100 30%float)] = Ok 30%float /\
  addEnergyUsage roomy key 200 10%float [(key, pushed R 100 30%float)]
  = Reply (Ok (pushed (pushed R 100 30%float) 200 10%float)) metered /\
  calculateTotalConsumption key metered = Ok 40%float.
Proof.
  exact (conj eq_refl
           (conj eq_refl
              (@add_raises_total roomy key 200 10%float 30%float
                 [(key, pushed R 100 30%float)] metered _ eq_refl eq_refl))).
Defined.

Lemma update_keeps_usage_witness :
  reachable roomy 100 metered /\
  (exists a st',
     updateEnergyAssessment roomy second_call key second_street metered
     = Reply (Ok a) st' /\
     getEnergyUsageHistory key st' = getEnergyUsageHistory key metered /\
     calculateTotalConsumption key st' = Ok 40%float).
Proof.
  split; [exact metered_reachable|].
  eexists. eexists. split; [reflexivity|].
  exact (@update_keeps_usage roomy 100 metered _ second_call key second_street
           _ metered_reachable eq_refl).
Defined.

Lemma add_traps_on_refused_write_witness :
  reachable sized 100 nearly_full /\
  StableBTreeMap.get key nearly_full
  = Some (pushed (assessed first_call long_street) 100 30%float) /\
  sized nearly_full key
    (pushed (pushed (assessed first_call long_street) 100 30%float) 200 10%float)
  = Some "ValueTooLarge" /\
  addEnergyUsage sized key 200 10%float nearly_full = Trap "ValueTooLarge" /\
  getEnergyUsageHistory key
    (commit nearly_full (addEnergyUsage sized key 200 10%float nearly_full))
  = Ok [ {| date := 100; consumption := 30%float |} ].
Proof.
  exact (conj nearly_full_reachable
           (conj eq_refl
              (conj eq_refl
                 (@add_traps_on_refused_write sized 100 nearly_full key 200
                    10%float _ "ValueTooLarge" nearly_full_reachable eq_refl
                    eq_refl)))).
Defined.

Lemma create_lets_nan_through_witness :
  Payload.address not_numbers <> "" /\
  PrimFloat.is_nan (Payload.efficiencyRating not_numbers) = true /\
  PrimFloat.is_nan (Payload.costSavings not_numbers) = true /\
  createEnergyAssessment roomy third_call not_numbers one_record
  = Reply (Ok (assessed third_call not_numbers))
          [(uuidv4 third_call, assessed third_call not_numbers); (key, R)].
Proof.
  assert (Haddress : Payload.address not_numbers <> "") by discriminate.
  exact (conj Haddress
           (conj eq_refl
              (conj eq_refl
                 (@create_lets_nan_through roomy third_call not_numbers
                    one_record Haddress (or_intror eq_refl)
                    (or_intror eq_refl) eq_refl)))).
Defined.

Lemma higher_threshold_selects_less_witness :
  PrimFloat.leb 5%float 8%float = true /\
  getHighEfficiencyAssessments 5%float two_records
  = Ok [assessed second_call main_street; merged second_call R second_street] /\
  getHighEfficiencyAssessments 8%float two_records
  = Ok [merged second_call R second_street] /\
  incl [merged second_call R second_street]
       [assessed second_call main_street; merged second_call R second_street].
Proof.
  exact (conj eq_refl
           (conj eq_refl
              (conj eq_refl
                 (proj2 (@higher_threshold_selects_less 5%float 8%float
                           two_records _ _ eq_refl eq_refl eq_refl))))).
Defined.

Lemma created_is_listed_by_rating_witness :
  createEnergyAssessment roomy first_call main_street [] = Reply (Ok R) one_record /\
  PrimFloat.ltb 0%float 5%float = true /\
  (exists listed,
     getHighEfficiencyAssessments 5%float one_record = Ok listed /\
     (In R listed <-> geb (Payload.efficiencyRating main_street) 5%float = true)).
Proof.
  exact (conj eq_refl
           (conj eq_refl
              (@created_is_listed_by_rating roomy first_call main_street []
                 one_record R 5%float eq_refl eq_refl))).
Defined.

Lemma earlier_creation_took_everything_witness :
  roomy [] (uuidv4 first_call) (assessed first_call no_address) = None /\
  Earlier.createEnergyAssessment roomy first_call no_address []
  = Reply (Ok (assessed first_call no_address))
          [(key, assessed first_call no_address)] /\
  commit [] (createEnergyAssessment roomy first_call no_address []) = [].
Proof.
  destruct (@earlier_creation_took_everything roomy first_call no_address []
              eq_refl) as (Hearlier & Hnow & _).
  exact (conj eq_refl
           (conj Hearlier (proj1 (Hnow (or_introl eq_refl))))).
Defined.

(** ** The listing across a creation and a deletion *)

Section ListingFacts.

Import StableBTreeMap.

Variable thrown : Store -> string -> EnergyAssessment -> option string.

Lemma put_fresh_splits (V : Type) (k : string) (v : V) (m : StableBTreeMap.t V) :
  get k m = None ->
  exists before after,
    m = (before ++ after)%list /\ put k v m = (before ++ (k, v) :: after)%list.
Proof.
  induction m as [|[k0 v0] rest IH]; simpl.
  - intros _. exists [], []. split; reflexivity.
  - destruct (String.eqb k k0) eqn:Eb; [discriminate|]. intros Hget.
    destruct (String.compare k k0) eqn:E.
    + apply compare_Eq in E. apply String.eqb_neq in Eb. contradiction.
    + exists [], ((k0, v0) :: rest). split; reflexivity.
    + destruct (IH Hget) as (before & after & Hm & Hput).
      exists ((k0, v0) :: before), after. simpl. now rewrite <- Hm, Hput.
Qed.

Lemma remove_present_splits (V : Type) (k : string) (v : V) (m : StableBTreeMap.t V) :
  get k m = Some v ->
  exists before after,
    m = (before ++ (k, v) :: after)%list /\ remove k m = (before ++ after)%list.
Proof.
  induction m as [|[k0 v0] rest IH]; simpl; [discriminate|].
  destruct (String.eqb k k0) eqn:Eb.
  - apply String.eqb_eq in Eb. subst k0. intros [= ->].
    exists [], rest. split; reflexivity.
  - intros Hget. destruct (IH Hget) as (before & after & Hm & Hremove).
    exists ((k0, v0) :: before), after. simpl. now rewrite <- Hm, Hremove.
Qed.

(** X20. What [getAllEnergyAssessments] lists changes by one record at a
    time. After a successful creation under an id that is not yet a key the
    listing is the listing of before with the new record put in at one
    place; after a successful deletion it is the listing of before with the
    deleted record taken out; the other records keep their order. *)
Theorem listing_changes_by_one (c : Call) (payload : EnergyAssessmentPayload)
  (k : string) (st : Store) :
  (StableBTreeMap.get (uuidv4 c) st = None ->
   forall a st',
     createEnergyAssessment thrown c payload st = Reply (Ok a) st' ->
     exists before after,
       getAllEnergyAssessments st = Ok (before ++ after)%list /\
       getAllEnergyAssessments st' = Ok (before ++ a :: after)%list) /\
  (forall r st',
     deleteEnergyAssessment k st = Reply (Ok r) st' ->
     exists before after,
       getAllEnergyAssessments st = Ok (before ++ r :: after)%list /\
       getAllEnergyAssessments st' = Ok (before ++ after)%list).
Proof.
  unfold getAllEnergyAssessments, values. split.
  - intros Hfresh a st' Hcreate.
    destruct (create_ok_inv _ _ _ _ Hcreate) as [-> ->].
    destruct (@put_fresh_splits _ (uuidv4 c) (assessed c payload) st Hfresh)
      as (before & after & Hst & Hput).
    exists (map snd before), (map snd after).
    rewrite Hput, Hst at 1. rewrite !map_app. split; reflexivity.
  - intros r st'. unfold deleteEnergyAssessment.
    destruct (negb (truthy k)); [discriminate|].
    destruct (StableBTreeMap.get k st) as [r0|] eqn:Hget; [|discriminate].
    intros [= <- <-].
    destruct (@remove_present_splits _ k r0 st Hget) as (before & after & Hst & Hremove).
    exists (map snd before), (map snd after).
    rewrite Hremove, Hst at 1. rewrite !map_app. split; reflexivity.
Qed.

End ListingFacts.

Lemma listing_changes_by_one_witness :
  getAllEnergyAssessments one_record = Ok [R] /\
  createEnergyAssessment roomy second_call main_street one_record
  = Reply (Ok (assessed second_call main_street))
          [(uuidv4 second_call, assessed second_call main_street); (key, R)] /\
  (exists before after,
     getAllEnergyAssessments one_record = Ok (before ++ after)%list /\
     getAllEnergyAssessments
       [(uuidv4 second_call, assessed second_call main_street); (key, R)]
     = Ok (before ++ assessed second_call main_street :: after)%list).
Proof.
  destruct (@listing_changes_by_one roomy second_call main_street key one_record)
    as [Hcreated _].
  exact (conj eq_refl (conj eq_refl (Hcreated eq_refl _ _ eq_refl))).
Defined.
